(** * Header reconstruction of [solveChallenge12.ts]

    A shallow embedding of the byte helpers [toFieldBytes] and [toNonceBytes]
    and of the candidate search of [bruteforceRLP]
    (packages/scripts/src/solveChallenge12.ts), with the properties the
    specification states about them, and of the password mask that
    [solveChallenge9] computes in the same file.

    JavaScript values are an inductive type, a [Uint8Array] is a [list byte],
    a JavaScript string is a [string] whose characters are code units below
    256, a thrown [Error] is the [Err] case of a result type, and the
    function's observable effects (the candidates it hashes, the lines it
    prints) are threaded as explicit state. *)

From Stdlib Require Import ZArith NArith List String Ascii Bool Lia.
From Stdlib Require Import Strings.Byte.
Import ListNotations.

Local Open Scope string_scope.
Local Open Scope list_scope.
Local Open Scope Z_scope.

(** ** Results and errors *)

(** The exceptions the modelled code can raise. *)
Inductive error : Type :=
| UndefinedValue                 (* "Undefined value passed to toFieldBytes" *)
| NegativeValue                  (* "Negative values not supported" *)
| NotAnInteger                   (* RangeError of BigInt(number) *)
| InvalidByteSequence            (* viem hexToBytes on a non-hex character *)
| LengthTooLarge                 (* viem toRlp, a length of 2^32 or more *)
| BlockNotFound                  (* "Block ... not found" *)
| InvalidLogsBloomLength (n : nat). (* "Invalid logsBloom length: n, expected 256" *)

Inductive res (A : Type) : Type :=
| Ok (a : A)
| Err (e : error).
Arguments Ok {A} a.
Arguments Err {A} e.

Definition bind {A B : Type} (r : res A) (k : A -> res B) : res B :=
  match r with
  | Ok a => k a
  | Err e => Err e
  end.

Notation "x <- r ;; k" := (bind r (fun x => k))
  (at level 61, r at next level, right associativity).

(** ** JavaScript values *)

Definition bytes := list byte.

(** The values that reach [toFieldBytes(value: any)]: what a block returned
    by the client holds (undefined, null, bigint, hex or plain strings),
    plus numbers, byte arrays and booleans, which the function also
    handles; other objects are not modelled.  [VNumber z] is a number whose
    value is the integer [z]; [VNumberNonInteger] is any other number (a
    fraction, NaN, an infinity), on which [BigInt(value)] throws. *)
Inductive value : Type :=
| VUndefined
| VNull
| VBigInt (z : Z)
| VNumber (z : Z)
| VNumberNonInteger
| VString (s : string)
| VBytes (bs : bytes)
| VBool (b : bool).

(** [a ?? b] *)
Definition nullish (v d : value) : value :=
  match v with
  | VUndefined | VNull => d
  | _ => v
  end.

(** [v !== undefined] *)
Definition isDefined (v : value) : bool :=
  match v with
  | VUndefined => false
  | _ => true
  end.

(** ** Bytes and characters

    [hexToBytes], [bytesToHex], [toRlp] and [keccak256] are imported from
    the viem library.  The first three are modelled after viem's
    implementation; [keccak256] stays a parameter of the search. *)

Definition byteOfN (n : N) : byte :=
  match Byte.of_N n with
  | Some b => b
  | None => x00
  end.

Definition byteVal (b : byte) : Z := Z.of_N (Byte.to_N b).

(** The integer a byte string denotes, most significant byte first. *)
Fixpoint beValue (bs : bytes) : Z :=
  match bs with
  | [] => 0
  | b :: rest => byteVal b * 256 ^ Z.of_nat (List.length rest) + beValue rest
  end.

Definition charCode (c : ascii) : N := N_of_ascii c.

(** viem [charCodeToBase16]: '0'-'9', 'A'-'F', 'a'-'f', else undefined. *)
Definition charCodeToBase16 (c : ascii) : option N :=
  let n := charCode c in
  if ((48 <=? n) && (n <=? 57))%N then Some (n - 48)%N
  else if ((65 <=? n) && (n <=? 70))%N then Some (n - 55)%N
  else if ((97 <=? n) && (n <=? 102))%N then Some (n - 87)%N
  else None.

(** [s.slice(2)] *)
Definition slice2 (s : string) : string :=
  match s with
  | String _ (String _ rest) => rest
  | _ => ""
  end.

(** The loop of viem [hexToBytes] over an even-length digit string. *)
Fixpoint hexPairs (s : string) : res bytes :=
  match s with
  | "" => Ok []
  | String c1 (String c2 rest) =>
      match charCodeToBase16 c1, charCodeToBase16 c2 with
      | Some nibbleLeft, Some nibbleRight =>
          bs <- hexPairs rest ;;
          Ok (byteOfN (nibbleLeft * 16 + nibbleRight) :: bs)
      | _, _ => Err InvalidByteSequence
      end
  | String _ "" => Err InvalidByteSequence
  end.

Definition padEven (s : string) : string :=
  if Nat.even (String.length s) then s else String "0" s.

(** viem [hexToBytes(hex)]: drop the two-character prefix, left-pad an odd
    digit string with '0', read the digits two by two. *)
Definition hexToBytes (hex : string) : res bytes :=
  hexPairs (padEven (slice2 hex)).

(** Lower-case hexadecimal digit of [d], for [0 <= d < 16]. *)
Definition hexDigit (d : Z) : ascii :=
  ascii_of_N (Z.to_N (if d <? 10 then 48 + d else 87 + d)).

(** viem [bytesToHex] without its prefix. *)
Fixpoint hexOfBytes (bs : bytes) : string :=
  match bs with
  | [] => ""
  | b :: rest =>
      String (hexDigit (byteVal b / 16))
        (String (hexDigit (byteVal b mod 16)) (hexOfBytes rest))
  end.

Definition bytesToHex (bs : bytes) : string := ("0x" ++ hexOfBytes bs)%string.

(** [n.toString(16)] for a bigint: the digits of [n], most significant
    first, no leading zero; "0" for zero. *)
Fixpoint toString16_digits (fuel : nat) (n : Z) (acc : string) : string :=
  match fuel with
  | O => acc
  | S fuel' =>
      let acc' := String (hexDigit (n mod 16)) acc in
      if n / 16 =? 0 then acc' else toString16_digits fuel' (n / 16) acc'
  end.

Definition toString16 (n : Z) : string :=
  if n <? 0
  then String "-" (toString16_digits (S (Z.to_nat (Z.log2 (- n)))) (- n) "")
  else toString16_digits (S (Z.to_nat (Z.log2 n))) n "".

(** [new TextEncoder().encode(s)] on code units below 256. *)
Definition utf8Char (c : ascii) : bytes :=
  let n := charCode c in
  if (n <? 128)%N then [byteOfN n]
  else [byteOfN (192 + n / 64); byteOfN (128 + n mod 64)].

Fixpoint utf8Encode (s : string) : bytes :=
  match s with
  | "" => []
  | String c rest => utf8Char c ++ utf8Encode rest
  end.

(** [s.startsWith("0x")] *)
Definition startsWith0x (s : string) : bool := String.prefix "0x" s.

(** ** toFieldBytes (lines 87-130) *)

Definition toFieldBytes (v : value) : res bytes :=
  match v with
  | VUndefined | VNull => Err UndefinedValue
  | VNumberNonInteger => Err NotAnInteger
  | VBigInt bigintValue | VNumber bigintValue =>
      if bigintValue =? 0 then Ok []
      else if bigintValue <? 0 then Err NegativeValue
      else
        let hex := toString16 bigintValue in
        let padded :=
          if (String.length hex mod 2 =? 0)%nat then hex else ("0" ++ hex)%string in
        hexToBytes ("0x" ++ padded)%string
  | VString s =>
      if (s =? "")%string || (s =? "0x")%string
         || (s =? "0x0")%string || (s =? "0x00")%string
      then Ok []
      else if startsWith0x s then hexToBytes s
      else Ok (utf8Encode s)
  | VBytes bs => Ok bs
  | VBool b => Ok [if b then x01 else x00]   (* viem toBytes -> boolToBytes *)
  end.

(** ** toNonceBytes (lines 135-153) *)

Definition zeroNonce : bytes := List.repeat x00 8.

(** [nonce] is [string | undefined]; [None] is undefined. *)
Definition toNonceBytes (nonce : option string) : res bytes :=
  match nonce with
  | None => Ok zeroNonce
  | Some s =>
      if (s =? "")%string || (s =? "0x0000000000000000")%string
      then Ok zeroNonce
      else
        bs <- hexToBytes s ;;
        if (List.length bs =? 8)%nat then Ok bs
        else if (List.length bs <? 8)%nat
        then Ok (List.repeat x00 (8 - List.length bs) ++ bs)
        else Ok (List.firstn 8 bs)
  end.

(** ** viem [toRlp] on a list of byte strings *)

Definition getSizeOfLength (length : Z) : res Z :=
  if length <? 2 ^ 8 then Ok 1
  else if length <? 2 ^ 16 then Ok 2
  else if length <? 2 ^ 24 then Ok 3
  else if length <? 2 ^ 32 then Ok 4
  else Err LengthTooLarge.

(** [pushUint8] .. [pushUint32]: [n] on [size] bytes, big-endian. *)
Fixpoint pushUint (size : nat) (n : Z) : bytes :=
  match size with
  | O => []
  | S size' =>
      byteOfN (Z.to_N ((n / 256 ^ Z.of_nat size') mod 256)) :: pushUint size' n
  end.

Definition zlength {A : Type} (l : list A) : Z := Z.of_nat (List.length l).

(** [getEncodableBytes] *)
Definition rlpBytes (bs : bytes) : res bytes :=
  sizeOfBytesLength <- getSizeOfLength (zlength bs) ;;
  let single :=
    match bs with
    | [b] => byteVal b <? 128
    | _ => false
    end in
  if single then Ok bs
  else if zlength bs <=? 55
  then Ok (byteOfN (Z.to_N (128 + zlength bs)) :: bs)
  else Ok (byteOfN (Z.to_N (128 + 55 + sizeOfBytesLength))
             :: pushUint (Z.to_nat sizeOfBytesLength) (zlength bs) ++ bs).

Fixpoint rlpItems (items : list bytes) : res bytes :=
  match items with
  | [] => Ok []
  | bs :: rest =>
      e <- rlpBytes bs ;;
      es <- rlpItems rest ;;
      Ok (e ++ es)
  end.

(** [getEncodableList], then [bytesToHex] (the default [to = 'hex']). *)
Definition toRlp (items : list bytes) : res string :=
  body <- rlpItems items ;;
  let bodyLength := zlength body in
  sizeOfBodyLength <- getSizeOfLength bodyLength ;;
  if bodyLength <=? 55
  then Ok (bytesToHex (byteOfN (Z.to_N (192 + bodyLength)) :: body))
  else Ok (bytesToHex (byteOfN (Z.to_N (192 + 55 + sizeOfBodyLength))
                         :: pushUint (Z.to_nat sizeOfBodyLength) bodyLength
                         ++ body)).

(** ** JavaScript 32-bit integer operators *)

Definition toInt32 (x : Z) : Z := (x + 2 ^ 31) mod 2 ^ 32 - 2 ^ 31.

(** [a << b] *)
Definition jsShl (a b : Z) : Z := toInt32 (Z.shiftl (toInt32 a) (b mod 32)).

(** [a & b] *)
Definition jsAnd (a b : Z) : Z := Z.land (toInt32 a) (toInt32 b).

(** ** String helpers of the search *)

(** [s.toLowerCase()] on code units below 256. *)
Definition lowerChar (c : ascii) : ascii :=
  let n := charCode c in
  if ((65 <=? n) && (n <=? 90))%N
     || ((192 <=? n) && (n <=? 222) && negb (n =? 215))%N
  then ascii_of_N (n + 32)
  else c.

Fixpoint toLowerCase (s : string) : string :=
  match s with
  | "" => ""
  | String c rest => String (lowerChar c) (toLowerCase rest)
  end.

(** The class [\s] on code units below 256. *)
Definition isWhitespace (c : ascii) : bool :=
  let n := charCode c in
  (((9 <=? n) && (n <=? 13)) || (n =? 32) || (n =? 160))%N.

(** [s.replace(/\s+/g, '')] *)
Fixpoint removeWhitespace (s : string) : string :=
  match s with
  | "" => ""
  | String c rest =>
      if isWhitespace c then removeWhitespace rest
      else String c (removeWhitespace rest)
  end.

(** ** The fetched block *)

(** The fields [bruteforceRLP] reads from the block [getBlock] returned.
    [hash], [logsBloom] and [nonce] are strings or nullish ([None]); the
    others are read as [any]. *)
Record Block : Type := {
  hash : option string;
  parentHash : value;
  sha3Uncles : value;
  miner : value;
  coinbase : value;
  stateRoot : value;
  transactionsRoot : value;
  receiptsRoot : value;
  logsBloom : option string;
  difficulty : value;
  number : value;
  gasLimit : value;
  gasUsed : value;
  timestamp : value;
  extraData : value;
  mixHash : value;
  nonce : option string;
  baseFeePerGas : value;
  withdrawalsRoot : value;
  blobGasUsed : value;
  excessBlobGas : value;
  parentBeaconBlockRoot : value;
  requestsHash : value
}.

Definition field : Type := string * value.

Definition emptyUnclesHash : string :=
  "0x1dcc4de8dec75d7aab85b567b6ccd41ad312451b948a7413f0a142fd40d49347".
Definition defaultMiner : string :=
  "0x4200000000000000000000000000000000000011".
Definition zeroMixHash : string :=
  "0x0000000000000000000000000000000000000000000000000000000000000000".
Definition zeroNonceHex : string := "0x0000000000000000".

(** Lines 206-214: the logsBloom check.  The result is the value later
    passed to [toFieldBytes]. *)
Definition processLogsBloom (lb : option string) : res value :=
  match lb with
  | None => Ok VUndefined
  | Some s =>
      if (s =? "")%string then Ok (VString s)
      else
        let s' := removeWhitespace s in
        bloomBytes <- hexToBytes s' ;;
        if (List.length bloomBytes =? 256)%nat then Ok (VString s')
        else Err (InvalidLogsBloomLength (List.length bloomBytes))
  end.

(** The fifteen arguments of lines 218-232, defaults applied. *)
Definition mandatoryValues (b : Block) (bloom : value) : list value :=
  [ parentHash b;
    nullish (sha3Uncles b) (VString emptyUnclesHash);
    nullish (miner b) (nullish (coinbase b) (VString defaultMiner));
    stateRoot b;
    transactionsRoot b;
    receiptsRoot b;
    bloom;
    nullish (difficulty b) (VBigInt 0);
    number b;
    gasLimit b;
    gasUsed b;
    timestamp b;
    nullish (extraData b) (VString "0x");
    nullish (mixHash b) (VString zeroMixHash) ].

Definition nonceOrDefault (b : Block) : option string :=
  match nonce b with
  | Some s => Some s
  | None => Some zeroNonceHex
  end.

Fixpoint mapFieldBytes (vs : list value) : res (list bytes) :=
  match vs with
  | [] => Ok []
  | v :: rest =>
      bs <- toFieldBytes v ;;
      bss <- mapFieldBytes rest ;;
      Ok (bs :: bss)
  end.

(** Lines 217-233. *)
Definition baseFields (b : Block) (bloom : value) : res (list bytes) :=
  fs <- mapFieldBytes (mandatoryValues b bloom) ;;
  n <- toNonceBytes (nonceOrDefault b) ;;
  Ok (fs ++ [n]).

Definition optionalFields (b : Block) : list field :=
  [ ("baseFeePerGas", baseFeePerGas b);
    ("withdrawalsRoot", withdrawalsRoot b);
    ("blobGasUsed", blobGasUsed b);
    ("excessBlobGas", excessBlobGas b);
    ("parentBeaconBlockRoot", parentBeaconBlockRoot b);
    ("requestsHash", requestsHash b) ].

(** Lines 237-256. *)
Definition availableOptionalFields (b : Block) : list field :=
  List.filter (fun f => isDefined (snd f)) (optionalFields b).

(** ** Effects: hashed candidates and console lines *)

(** The lines the search prints (lines 259-333); the dump of the block's
    fields before it (lines 171-204) is not modelled. *)
Inductive logLine : Type :=
| LogTesting (totalCombinations : Z) (k : nat)
| LogAvailable (names : list string)
| LogPriorityMask (mask : Z) (included : list string)
| LogProgress (mask totalCombinations : Z)
| LogFound (priority : bool) (mask : Z)
| LogIncluded (included : list string)
| LogRlpBytes (rlp : string)
| LogRlpLength (n : Z)
| LogNotFound
| LogTriedAll (totalCombinations : Z).

(** [attempts]: the masks whose candidate was encoded and hashed, in order;
    [console]: the lines printed, in order. *)
Record effects : Type := {
  attempts : list Z;
  console : list logLine
}.

Definition noEffects : effects := {| attempts := []; console := [] |}.

Definition hashed (mask : Z) (st : effects) : effects :=
  {| attempts := attempts st ++ [mask]; console := console st |}.

Definition logged (ls : list logLine) (st : effects) : effects :=
  {| attempts := attempts st; console := console st ++ ls |}.

(** How a call ends: an exception, or the returned value ([None] is null). *)
Inductive outcome : Type :=
| Throw (e : error)
| Return (r : option string).

Definition run : Type := outcome * effects.

Definition result (r : run) : outcome := fst r.
Definition tried (r : run) : list Z := attempts (snd r).
Definition printed (r : run) : list logLine := console (snd r).

(** ** The candidate search (lines 258-334) *)

Definition isBaseFee (f : field) : bool := (fst f =? "baseFeePerGas")%string.

(** [Array.prototype.findIndex] *)
Fixpoint findIndex (p : field -> bool) (l : list field) (i : Z) : Z :=
  match l with
  | [] => -1
  | f :: rest => if p f then i else findIndex p rest (i + 1)
  end.

(** [Array.prototype.includes] on numbers *)
Definition includes (l : list Z) (x : Z) : bool := List.existsb (Z.eqb x) l.

(** [0, 1, ..., n-1]: the values of a counting [for] loop. *)
Definition countTo (n : Z) : list Z := List.map Z.of_nat (List.seq 0 (Z.to_nat n)).

Section Search.

(** viem's [keccak256], applied to the hex string [toRlp] returned. *)
Variable keccak256 : string -> string.

Variable targetHash : option string.
Variable base : list bytes.
Variable available : list field.

(** [calculatedHash.toLowerCase() === targetHash?.toLowerCase()] *)
Definition hashMatches (calculatedHash : string) : bool :=
  match targetHash with
  | Some t => (toLowerCase calculatedHash =? toLowerCase t)%string
  | None => false
  end.

Definition totalCombinations : Z := 2 ^ zlength available.

(** Lines 263-274. *)
Definition priorityMasks : list Z :=
  (if List.existsb isBaseFee available
   then [jsShl 1 (findIndex isBaseFee available 0)] else [])
  ++ (if totalCombinations >? 1 then [totalCombinations - 1] else []).

(** The inner loop of lines 281-286 and 309-314, from index [i] on. *)
Fixpoint buildHeader (mask i : Z) (fields : list field)
    (headerList : list bytes) (included : list string)
    : res (list bytes * list string) :=
  match fields with
  | [] => Ok (headerList, included)
  | (name, v) :: rest =>
      if jsAnd mask (jsShl 1 i) =? 0
      then buildHeader mask (i + 1) rest headerList included
      else
        bs <- toFieldBytes v ;;
        buildHeader mask (i + 1) rest (headerList ++ [bs]) (included ++ [name])
  end.

(** One candidate: its RLP encoding and the names it includes. *)
Definition candidate (mask : Z) : res (string * list string) :=
  hi <- buildHeader mask 0 available base [] ;;
  rlp <- toRlp (fst hi) ;;
  Ok (rlp, snd hi).

(** [(rlpBytes.length - 2) / 2] *)
Definition rlpLength (rlp : string) : Z :=
  (Z.of_nat (String.length rlp) - 2) / 2.

Definition foundLines (priority : bool) (mask : Z) (rlp : string)
    (included : list string) : list logLine :=
  [LogFound priority mask; LogIncluded included; LogRlpBytes rlp;
   LogRlpLength (rlpLength rlp)].

(** The body shared by the two loops: build, encode, hash, print,
    compare.  [inl] leaves the function, [inr] goes on to the next mask. *)
Definition tryMask (priority : bool) (mask : Z) (st : effects)
    : run + effects :=
  match candidate mask with
  | Err e => inl (Throw e, st)
  | Ok (rlp, included) =>
      let calculatedHash := keccak256 rlp in
      let st1 := hashed mask st in
      let st2 :=
        if priority then logged [LogPriorityMask mask included] st1
        else if mask mod 10 =? 0
             then logged [LogProgress mask totalCombinations] st1
             else st1 in
      if hashMatches calculatedHash
      then inl (Return (Some rlp),
                logged (foundLines priority mask rlp included) st2)
      else inr st2
  end.

(** Lines 277-300 ([priority = true], nothing skipped) and lines 303-330
    ([priority = false], the priority masks skipped). *)
Fixpoint tryMasks (priority : bool) (masks : list Z) (st : effects)
    : run + effects :=
  match masks with
  | [] => inr st
  | mask :: rest =>
      if negb priority && includes priorityMasks mask
      then tryMasks priority rest st
      else
        match tryMask priority mask st with
        | inl r => inl r
        | inr st' => tryMasks priority rest st'
        end
  end.

Definition search : run :=
  let st0 :=
    logged [LogTesting totalCombinations (List.length available);
            LogAvailable (List.map fst available)] noEffects in
  match tryMasks true priorityMasks st0 with
  | inl r => r
  | inr st1 =>
      match tryMasks false (countTo totalCombinations) st1 with
      | inl r => r
      | inr st2 =>
          (Return None,
           logged [LogNotFound; LogTriedAll totalCombinations] st2)
      end
  end.

End Search.

(** ** bruteforceRLP (lines 158-335), from the fetched block on *)

Definition bruteforceRLP (keccak256 : string -> string)
    (block : option Block) : run :=
  match block with
  | None => (Throw BlockNotFound, noEffects)
  | Some b =>
      match processLogsBloom (logsBloom b) with
      | Err e => (Throw e, noEffects)
      | Ok bloom =>
          match baseFields b bloom with
          | Err e => (Throw e, noEffects)
          | Ok base => search keccak256 (hash b) base (availableOptionalFields b)
          end
      end
  end.

(** ** Definitions used to state the properties *)

Definition digitVal (c : ascii) : Z :=
  match charCodeToBase16 c with
  | Some d => Z.of_N d
  | None => 0
  end.

(** The integer a digit string denotes, most significant digit first. *)
Fixpoint hexValue (s : string) : Z :=
  match s with
  | "" => 0
  | String c rest => digitVal c * 16 ^ Z.of_nat (String.length rest) + hexValue rest
  end.

Fixpoint isHexString (s : string) : bool :=
  match s with
  | "" => true
  | String c rest =>
      match charCodeToBase16 c with
      | Some _ => isHexString rest
      | None => false
      end
  end.

(** An inclusion pattern: one flag per available optional field, in the
    order of the fields. *)
Definition pattern : Type := list bool.

Fixpoint selectFields (p : pattern) (fields : list field) : list field :=
  match p, fields with
  | flag :: p', f :: rest =>
      if flag then f :: selectFields p' rest else selectFields p' rest
  | _, _ => []
  end.

(** The encoding the specification describes for a pattern: the mandatory
    fields, then the optional fields the pattern includes, in their order;
    with it, the names of the included fields. *)
Definition patternCandidate (base : list bytes) (available : list field)
    (p : pattern) : res (string * list string) :=
  let chosen := selectFields p available in
  bs <- mapFieldBytes (List.map snd chosen) ;;
  rlp <- toRlp (base ++ bs) ;;
  Ok (rlp, List.map fst chosen).

(** The bitmask of a pattern (bit [i] is flag [i]) and back. *)
Fixpoint maskOf (p : pattern) : Z :=
  match p with
  | [] => 0
  | flag :: p' => Z.b2z flag + 2 * maskOf p'
  end.

Fixpoint patternOf (k : nat) (mask : Z) : pattern :=
  match k with
  | O => []
  | S k' => Z.odd mask :: patternOf k' (mask / 2)
  end.

(** Two hex strings denote the same hash when they agree up to case. *)
Definition sameHash (h : string) (target : option string) : Prop :=
  exists t, target = Some t /\ toLowerCase h = toLowerCase t.

(** A candidate that encodes but whose hash is not the target. *)
Definition nonMatching (keccak256 : string -> string)
    (targetHash : option string) (base : list bytes)
    (available : list field) (mask : Z) : Prop :=
  exists rlp included,
    candidate base available mask = Ok (rlp, included)
    /\ hashMatches targetHash (keccak256 rlp) = false.

(** The masks of a loop that are not skipped. *)
Definition unskipped (available : list field) (priority : bool)
    (masks : list Z) : list Z :=
  List.filter
    (fun m => negb (negb priority && includes (priorityMasks available) m))
    masks.

(** What one iteration prints before it compares the hash. *)
Definition attemptLines (available : list field) (priority : bool) (m : Z)
    (included : list string) : list logLine :=
  if priority then [LogPriorityMask m included]
  else if m mod 10 =? 0 then [LogProgress m (totalCombinations available)]
       else [].

(** The bytes of the mandatory fields of a block that passes the
    logsBloom check: what [bruteforceRLP] holds when the search starts. *)
Definition headerInputs (b : Block) : res (list bytes) :=
  bloom <- processLogsBloom (logsBloom b) ;;
  baseFields b bloom.

(** ** Concrete blocks *)

Fixpoint zeroDigits (n : nat) : string :=
  match n with
  | O => ""
  | S n' => String "0" (zeroDigits n')
  end.

(** A 32-byte hash whose first digit is [c]. *)
Definition hash32 (c : ascii) : value :=
  VString ("0x" ++ String c (zeroDigits 63))%string.

(** A block as an Optimism node returns it, with a bloom of [bloomLength]
    zero bytes; its hash, base fee and withdrawals root are left open. *)
Definition sampleBlock (bloomLength : nat) (h : option string)
    (baseFee withdrawals : value) : Block :=
  {| hash := h;
     parentHash := hash32 "1";
     sha3Uncles := VString emptyUnclesHash;
     miner := VString defaultMiner;
     coinbase := VUndefined;
     stateRoot := hash32 "2";
     transactionsRoot := hash32 "3";
     receiptsRoot := hash32 "4";
     logsBloom := Some ("0x" ++ zeroDigits (2 * bloomLength))%string;
     difficulty := VBigInt 0;
     number := VBigInt 123456;
     gasLimit := VBigInt 30000000;
     gasUsed := VBigInt 21000;
     timestamp := VBigInt 1700000000;
     extraData := VString "0x";
     mixHash := hash32 "5";
     nonce := Some zeroNonceHex;
     baseFeePerGas := baseFee;
     withdrawalsRoot := withdrawals;
     blobGasUsed := VUndefined;
     excessBlobGas := VUndefined;
     parentBeaconBlockRoot := VUndefined;
     requestsHash := VUndefined |}.

(** The same header as the node of another client reports it: the miner
    under the name [coinbase], the defaulted fields left out. *)
Definition sampleBlockCoinbase (h : option string) (baseFee : value) : Block :=
  {| hash := h;
     parentHash := hash32 "1";
     sha3Uncles := VUndefined;
     miner := VNull;
     coinbase := VString defaultMiner;
     stateRoot := hash32 "2";
     transactionsRoot := hash32 "3";
     receiptsRoot := hash32 "4";
     logsBloom := Some ("0x" ++ zeroDigits 512)%string;
     difficulty := VUndefined;
     number := VBigInt 123456;
     gasLimit := VBigInt 30000000;
     gasUsed := VBigInt 21000;
     timestamp := VBigInt 1700000000;
     extraData := VNull;
     mixHash := hash32 "5";
     nonce := None;
     baseFeePerGas := baseFee;
     withdrawalsRoot := VUndefined;
     blobGasUsed := VUndefined;
     excessBlobGas := VUndefined;
     parentBeaconBlockRoot := VUndefined;
     requestsHash := VUndefined |}.

(** The mandatory fields of [sampleBlock 256 _ _ _], encoded. *)
Definition sampleBase : list bytes :=
  match headerInputs (sampleBlock 256 None VUndefined VUndefined) with
  | Ok base => base
  | Err _ => []
  end.

(** The RLP encoding of the sample header followed by [extra]. *)
Definition sampleRlp (extra : list bytes) : string :=
  match toRlp (sampleBase ++ extra) with
  | Ok rlp => rlp
  | Err _ => ""
  end.

(** A stand-in for keccak256 on concrete blocks: injective, as keccak256
    is taken to be on the candidates of one block. *)
Definition standInHash (s : string) : string := ("0x" ++ s)%string.

(** ** Definitions used by the further properties *)

(** The order in which the search takes the masks: the priority masks,
    then the masks [0 .. 2^k - 1] that are not priority masks. *)
Definition searchOrder (available : list field) : list Z :=
  priorityMasks available
  ++ List.filter (fun m => negb (includes (priorityMasks available) m))
       (countTo (totalCombinations available)).

(** No mask occurs twice. *)
Fixpoint distinct (l : list Z) : bool :=
  match l with
  | [] => true
  | x :: rest => negb (includes rest x) && distinct rest
  end.

(** [l1] is [l2] with some elements left out. *)
Inductive subsequence {A : Type} : list A -> list A -> Prop :=
| subsequence_nil : subsequence [] []
| subsequence_skip (x : A) (l1 l2 : list A) :
    subsequence l1 l2 -> subsequence l1 (x :: l2)
| subsequence_keep (x : A) (l1 l2 : list A) :
    subsequence l1 l2 -> subsequence (x :: l1) (x :: l2).

(** The names of the optional fields, in header order (lines 193-200). *)
Definition optionalNames : list string :=
  ["baseFeePerGas"; "withdrawalsRoot"; "blobGasUsed"; "excessBlobGas";
   "parentBeaconBlockRoot"; "requestsHash"].

(** The block [b] with another hash, and with another logsBloom. *)
Definition withHash (b : Block) (h : option string) : Block :=
  {| hash := h;
     parentHash := parentHash b;
     sha3Uncles := sha3Uncles b;
     miner := miner b;
     coinbase := coinbase b;
     stateRoot := stateRoot b;
     transactionsRoot := transactionsRoot b;
     receiptsRoot := receiptsRoot b;
     logsBloom := logsBloom b;
     difficulty := difficulty b;
     number := number b;
     gasLimit := gasLimit b;
     gasUsed := gasUsed b;
     timestamp := timestamp b;
     extraData := extraData b;
     mixHash := mixHash b;
     nonce := nonce b;
     baseFeePerGas := baseFeePerGas b;
     withdrawalsRoot := withdrawalsRoot b;
     blobGasUsed := blobGasUsed b;
     excessBlobGas := excessBlobGas b;
     parentBeaconBlockRoot := parentBeaconBlockRoot b;
     requestsHash := requestsHash b |}.

Definition withLogsBloom (b : Block) (bloom : option string) : Block :=
  {| hash := hash b;
     parentHash := parentHash b;
     sha3Uncles := sha3Uncles b;
     miner := miner b;
     coinbase := coinbase b;
     stateRoot := stateRoot b;
     transactionsRoot := transactionsRoot b;
     receiptsRoot := receiptsRoot b;
     logsBloom := bloom;
     difficulty := difficulty b;
     number := number b;
     gasLimit := gasLimit b;
     gasUsed := gasUsed b;
     timestamp := timestamp b;
     extraData := extraData b;
     mixHash := mixHash b;
     nonce := nonce b;
     baseFeePerGas := baseFeePerGas b;
     withdrawalsRoot := withdrawalsRoot b;
     blobGasUsed := blobGasUsed b;
     excessBlobGas := excessBlobGas b;
     parentBeaconBlockRoot := parentBeaconBlockRoot b;
     requestsHash := requestsHash b |}.

(** [if (!rlpBytes)] of [executeMint] (lines 444-448): null and the empty
    string are falsy. *)
Definition isFalsy (rlpBytes : option string) : bool :=
  match rlpBytes with
  | None => true
  | Some s => (s =? "")%string
  end.

(** ** The reconstruction as a function of the target and the fields

    What the specification calls the reconstruction: a function of the
    target hash and the field values and of nothing else.  The candidates
    are the encodings of the inclusion patterns, taken in search order;
    the first that cannot be encoded raises, the first whose hash is the
    target (up to letter case) is returned, and null is returned when
    none is left. *)
Fixpoint firstMatch (keccak256 : string -> string) (targetHash : option string)
    (candidates : list (res (string * list string))) : outcome :=
  match candidates with
  | [] => Return None
  | Err e :: _ => Throw e
  | Ok (rlp, _) :: rest =>
      let found :=
        match targetHash with
        | Some t => (toLowerCase (keccak256 rlp) =? toLowerCase t)%string
        | None => false
        end in
      if found then Return (Some rlp)
      else firstMatch keccak256 targetHash rest
  end.

Definition reconstruct (keccak256 : string -> string)
    (targetHash : option string) (base : list bytes)
    (available : list field) : outcome :=
  firstMatch keccak256 targetHash
    (List.map
       (fun m =>
          patternCandidate base available
            (patternOf (List.length available) m))
       (searchOrder available)).

(** The sample block with the hash of the sample header followed by
    [extra] as its target. *)
Definition targetBlock (extra : list bytes) (baseFee withdrawals : value)
    : Block :=
  sampleBlock 256 (Some (standInHash (sampleRlp extra))) baseFee withdrawals.

(** ** The password mask of [solveChallenge9] (lines 676-705)

    [count] and [originalPassword] are the bigints read from the two
    storage slots; bigint operators are the operations of [Z]: [%] is
    [Z.rem], [<<] is [Z.shiftl], [~] is [Z.lnot], [&] is [Z.land]. *)

Module Challenge9.

Definition shiftBits (count : Z) : Z := (31 - Z.rem count 32) * 8.

Definition ffShifted (count : Z) : Z := Z.shiftl 255 (shiftBits count).

Definition mask (count : Z) : Z := Z.lnot (ffShifted count).

Definition mask32Bytes (count : Z) : Z :=
  Z.land (mask count) (Z.shiftl 1 256 - 1).

Definition maskedPassword (originalPassword count : Z) : Z :=
  Z.land originalPassword (mask32Bytes count).

(** [s.padStart(targetLength, "0")] *)
Definition padStart (targetLength : nat) (s : string) : string :=
  (zeroDigits (targetLength - String.length s) ++ s)%string.

Definition maskedPasswordBytes32 (originalPassword count : Z) : string :=
  ("0x" ++ padStart 64 (toString16 (maskedPassword originalPassword count)))%string.

End Challenge9.

(** Byte [i] of a 32-byte word, counted from the most significant one, as
    Solidity indexes a [bytes32]. *)
Definition byteAt (word i : Z) : Z := (word / 256 ^ (31 - i)) mod 256.

(** * Properties *)

(** ** Bytes, digits and [hexToBytes] *)

Lemma byteVal_byteOfN (n : N) : (n < 256)%N -> byteVal (byteOfN n) = Z.of_N n.
Proof.
  intros Hn. unfold byteVal, byteOfN.
  destruct (Byte.of_N n) as [b|] eqn:E.
  - now rewrite (Byte.to_of_N _ E).
  - apply Byte.of_N_None_iff in E. lia.
Qed.

Lemma byteVal_range (b : byte) : 0 <= byteVal b < 256.
Proof. unfold byteVal. pose proof (Byte.to_N_bounded b). lia. Qed.

Lemma byteVal_zero (b : byte) : byteVal b = 0 -> b = x00.
Proof.
  unfold byteVal. intros H.
  assert (E : Byte.to_N b = 0%N) by lia.
  pose proof (Byte.of_to_N b) as Hb. rewrite E in Hb.
  vm_compute in Hb. congruence.
Qed.

Lemma charCodeToBase16_lt (c : ascii) (d : N) :
  charCodeToBase16 c = Some d -> (d < 16)%N.
Proof.
  unfold charCodeToBase16. cbv zeta. generalize (charCode c). intros n.
  destruct (N.leb_spec 48 n), (N.leb_spec n 57), (N.leb_spec 65 n),
    (N.leb_spec n 70), (N.leb_spec 97 n), (N.leb_spec n 102);
    simpl; intros Hd; inversion Hd; subst; lia.
Qed.

Lemma digitVal_range (c : ascii) : 0 <= digitVal c < 16.
Proof.
  unfold digitVal. destruct (charCodeToBase16 c) eqn:E; [|lia].
  apply charCodeToBase16_lt in E. lia.
Qed.

Lemma charCodeToBase16_hexDigit (d : Z) :
  0 <= d < 16 -> charCodeToBase16 (hexDigit d) = Some (Z.to_N d).
Proof.
  intros H.
  assert (C : d = 0 \/ d = 1 \/ d = 2 \/ d = 3 \/ d = 4 \/ d = 5 \/ d = 6
              \/ d = 7 \/ d = 8 \/ d = 9 \/ d = 10 \/ d = 11 \/ d = 12
              \/ d = 13 \/ d = 14 \/ d = 15) by lia.
  repeat (destruct C as [-> | C]; [reflexivity|]). subst; reflexivity.
Qed.

Lemma digitVal_hexDigit (d : Z) : 0 <= d < 16 -> digitVal (hexDigit d) = d.
Proof.
  intros H. unfold digitVal. rewrite charCodeToBase16_hexDigit by assumption. lia.
Qed.

Lemma even_mod2 (n : nat) : Nat.even n = (n mod 2 =? 0)%nat.
Proof.
  destruct (Nat.even n) eqn:E.
  - apply Nat.even_spec in E. destruct E as [k ->].
    rewrite Nat.mul_comm, Nat.Div0.mod_mul. reflexivity.
  - assert (O : Nat.odd n = true) by (unfold Nat.odd; now rewrite E).
    apply Nat.odd_spec in O. destruct O as [k ->].
    rewrite Nat.add_comm, Nat.mul_comm, Nat.Div0.mod_add. reflexivity.
Qed.

Lemma beValue_cons (b : byte) (rest : bytes) :
  beValue (b :: rest) = byteVal b * 256 ^ Z.of_nat (List.length rest) + beValue rest.
Proof. reflexivity. Qed.

Lemma hexValue_cons (c : ascii) (rest : string) :
  hexValue (String c rest)
  = digitVal c * 16 ^ Z.of_nat (String.length rest) + hexValue rest.
Proof. reflexivity. Qed.

Lemma pow16_double (m : nat) : 16 ^ Z.of_nat (2 * m) = 256 ^ Z.of_nat m.
Proof.
  replace (Z.of_nat (2 * m)) with (2 * Z.of_nat m) by lia.
  rewrite Z.pow_mul_r by lia. reflexivity.
Qed.

(** On an even-length string of digits the loop of [hexToBytes] succeeds,
    yields half as many bytes, and preserves the denoted integer. *)
Lemma hexPairs_ok (m : nat) : forall s,
  String.length s = (2 * m)%nat -> isHexString s = true ->
  exists bs, hexPairs s = Ok bs /\ List.length bs = m /\ beValue bs = hexValue s.
Proof.
  induction m as [|m IH]; intros s Hlen Hhex.
  - destruct s; [|discriminate]. exists []. auto.
  - destruct s as [|c1 [|c2 rest]]; simpl in Hlen; try lia.
    assert (Hrest : String.length rest = (2 * m)%nat) by lia.
    simpl in Hhex.
    destruct (charCodeToBase16 c1) as [a|] eqn:E1; [|discriminate].
    destruct (charCodeToBase16 c2) as [b|] eqn:E2; [|discriminate].
    destruct (IH rest Hrest Hhex) as (bs & Hbs & Hl & Hv).
    exists (byteOfN (a * 16 + b) :: bs). cbn [hexPairs].
    rewrite E1, E2, Hbs. cbn [bind List.length].
    split; [reflexivity|]. split; [lia|].
    pose proof (charCodeToBase16_lt _ _ E1). pose proof (charCodeToBase16_lt _ _ E2).
    rewrite beValue_cons, !hexValue_cons. cbn [String.length].
    rewrite byteVal_byteOfN by lia.
    unfold digitVal. rewrite E1, E2, Hl, Hv, Hrest.
    replace (Z.of_nat (S (2 * m))) with (Z.of_nat (2 * m) + 1) by lia.
    rewrite Z.pow_add_r by lia. rewrite pow16_double. lia.
Qed.

(** The first byte read from two digits is zero only if both digits are. *)
Lemma hexPairs_head (c1 c2 : ascii) (rest : string) (b : byte) (bs : bytes) :
  hexPairs (String c1 (String c2 rest)) = Ok (b :: bs) ->
  byteVal b = 16 * digitVal c1 + digitVal c2
  /\ charCodeToBase16 c1 <> None /\ charCodeToBase16 c2 <> None
  /\ hexPairs rest = Ok bs.
Proof.
  cbn [hexPairs]. unfold digitVal.
  destruct (charCodeToBase16 c1) as [a|] eqn:E1; [|discriminate].
  destruct (charCodeToBase16 c2) as [d|] eqn:E2; [|discriminate].
  destruct (hexPairs rest) as [bs'|] eqn:E; cbn [bind]; [|discriminate].
  intros H. injection H as Hb Hbs. subst b bs'.
  pose proof (charCodeToBase16_lt _ _ E1). pose proof (charCodeToBase16_lt _ _ E2).
  rewrite byteVal_byteOfN by lia.
  split; [lia|]. split; [discriminate|]. split; [discriminate|reflexivity].
Qed.

(** ** [toString(16)] *)

Lemma toString16_digits_spec (fuel : nat) : forall n acc,
  0 <= n < 16 ^ Z.of_nat fuel -> (0 < fuel)%nat ->
  isHexString (toString16_digits fuel n acc) = isHexString acc
  /\ hexValue (toString16_digits fuel n acc)
     = n * 16 ^ Z.of_nat (String.length acc) + hexValue acc.
Proof.
  induction fuel as [|fuel IH]; intros n acc Hn Hf; [lia|].
  simpl toString16_digits.
  assert (Hd : 0 <= n mod 16 < 16) by (apply Z.mod_pos_bound; lia).
  assert (Hq : 0 <= n / 16) by (apply Z.div_pos; lia).
  pose proof (Z.div_mod n 16 ltac:(lia)) as Hdm.
  destruct (n / 16 =? 0) eqn:E.
  - apply Z.eqb_eq in E. cbn [isHexString]. rewrite hexValue_cons.
    rewrite charCodeToBase16_hexDigit, digitVal_hexDigit by assumption.
    split; [reflexivity|]. replace (n mod 16) with n by lia. reflexivity.
  - apply Z.eqb_neq in E.
    assert (Hlt : n / 16 < 16 ^ Z.of_nat fuel).
    { apply Z.div_lt_upper_bound; [lia|].
      replace (Z.of_nat (S fuel)) with (Z.of_nat fuel + 1) in Hn by lia.
      rewrite Z.pow_add_r in Hn by lia. lia. }
    assert (Hf' : (0 < fuel)%nat).
    { destruct fuel; [|lia]. simpl in Hlt. lia. }
    destruct (IH (n / 16) (String (hexDigit (n mod 16)) acc)
                ltac:(lia) Hf') as [H1 H2].
    rewrite H1, H2. cbn [isHexString String.length]. rewrite hexValue_cons.
    rewrite charCodeToBase16_hexDigit, digitVal_hexDigit by assumption.
    split; [reflexivity|].
    replace (Z.of_nat (S (String.length acc)))
      with (Z.of_nat (String.length acc) + 1) by lia.
    rewrite Z.pow_add_r by lia. nia.
Qed.

Lemma toString16_digits_head (fuel : nat) : forall n acc,
  0 < n < 16 ^ Z.of_nat fuel ->
  exists d rest, 1 <= d < 16
    /\ toString16_digits fuel n acc = String (hexDigit d) rest.
Proof.
  induction fuel as [|fuel IH]; intros n acc Hn; [simpl in Hn; lia|].
  simpl toString16_digits.
  assert (Hd : 0 <= n mod 16 < 16) by (apply Z.mod_pos_bound; lia).
  pose proof (Z.div_mod n 16 ltac:(lia)) as Hdm.
  assert (Hq : 0 <= n / 16) by (apply Z.div_pos; lia).
  destruct (n / 16 =? 0) eqn:E.
  - apply Z.eqb_eq in E. exists (n mod 16), acc. split; [lia|reflexivity].
  - apply Z.eqb_neq in E. apply IH. split; [lia|].
    apply Z.div_lt_upper_bound; [lia|].
    replace (Z.of_nat (S fuel)) with (Z.of_nat fuel + 1) in Hn by lia.
    rewrite Z.pow_add_r in Hn by lia. lia.
Qed.

Lemma toString16_fuel (n : Z) :
  0 < n -> n < 16 ^ Z.of_nat (S (Z.to_nat (Z.log2 n))).
Proof.
  intros Hn. pose proof (Z.log2_spec n Hn) as [_ Hlt].
  pose proof (Z.log2_nonneg n).
  replace (Z.of_nat (S (Z.to_nat (Z.log2 n)))) with (Z.succ (Z.log2 n)) by lia.
  eapply Z.lt_le_trans; [exact Hlt|].
  apply Z.pow_le_mono_l. lia.
Qed.

Lemma toString16_positive (n : Z) :
  0 < n ->
  isHexString (toString16 n) = true
  /\ hexValue (toString16 n) = n
  /\ exists d rest, 1 <= d < 16 /\ toString16 n = String (hexDigit d) rest.
Proof.
  intros Hn. unfold toString16.
  destruct (n <? 0) eqn:E; [apply Z.ltb_lt in E; lia|].
  pose proof (toString16_fuel n Hn) as Hf.
  destruct (toString16_digits_spec (S (Z.to_nat (Z.log2 n))) n ""
              ltac:(lia) ltac:(lia)) as [H1 H2].
  split; [rewrite H1; reflexivity|]. split; [rewrite H2; simpl; lia|].
  apply toString16_digits_head. lia.
Qed.

(** ** [toFieldBytes] on integers *)

Lemma padded_even (hex : string) :
  let padded :=
    if (String.length hex mod 2 =? 0)%nat then hex else ("0" ++ hex)%string in
  padEven padded = padded
  /\ exists m, String.length padded = (2 * m)%nat.
Proof.
  cbv zeta. unfold padEven. rewrite <- even_mod2.
  destruct (Nat.even (String.length hex)) eqn:E.
  - rewrite E. split; [reflexivity|].
    apply Nat.even_spec in E. destruct E as [k Hk]. exists k. exact Hk.
  - assert (E' : Nat.even (String.length ("0" ++ hex)%string) = true).
    { cbn [append String.length]. rewrite Nat.even_succ.
      unfold Nat.odd. now rewrite E. }
    rewrite E'. split; [reflexivity|].
    apply Nat.even_spec in E'. destruct E' as [k Hk]. exists k. exact Hk.
Qed.

Lemma toFieldBytes_positive (n : Z) :
  0 < n ->
  exists b rest,
    toFieldBytes (VBigInt n) = Ok (b :: rest)
    /\ beValue (b :: rest) = n /\ b <> x00.
Proof.
  intros Hn.
  destruct (toString16_positive n Hn) as (Hhex & Hval & d & tl & Hd & Hs).
  unfold toFieldBytes.
  destruct (n =? 0) eqn:E0; [apply Z.eqb_eq in E0; lia|].
  destruct (n <? 0) eqn:E1; [apply Z.ltb_lt in E1; lia|].
  cbv zeta. pose proof (padded_even (toString16 n)) as Hpadded.
  cbv zeta in Hpadded.
  set (padded := if (String.length (toString16 n) mod 2 =? 0)%nat
                 then toString16 n else ("0" ++ toString16 n)%string) in *.
  destruct Hpadded as [Hpad [m Hlen]].
  unfold hexToBytes. change (slice2 ("0x" ++ padded)%string) with padded.
  rewrite Hpad. subst padded.
  destruct ((String.length (toString16 n) mod 2 =? 0)%nat) eqn:Epar.
  - destruct (hexPairs_ok m _ Hlen Hhex) as (bs & Hbs & Hl & Hv).
    rewrite Hs in Hbs, Hlen.
    destruct tl as [|c2 tl']; [cbn in Hlen; lia|].
    destruct bs as [|b bs'].
    { cbn [List.length] in Hl. subst m. cbn in Hlen. lia. }
    exists b, bs'. rewrite Hs. split; [exact Hbs|]. split; [congruence|].
    destruct (hexPairs_head _ _ _ _ _ Hbs) as (Hb & _).
    rewrite digitVal_hexDigit in Hb by lia.
    pose proof (digitVal_range c2). intros ->. change (byteVal x00) with 0 in Hb. lia.
  - assert (Hhex' : isHexString ("0" ++ toString16 n)%string = true)
      by (cbn; exact Hhex).
    destruct (hexPairs_ok m _ Hlen Hhex') as (bs & Hbs & Hl & Hv).
    cbn [append] in Hbs, Hv. rewrite hexValue_cons in Hv.
    change (digitVal "0") with 0 in Hv.
    rewrite Hs in Hbs.
    destruct bs as [|b bs'].
    { subst m. rewrite Hs in Hlen. cbn in Hlen. lia. }
    exists b, bs'. cbn [append]. rewrite Hs. split; [exact Hbs|].
    split; [lia|].
    destruct (hexPairs_head _ _ _ _ _ Hbs) as (Hb & _).
    rewrite digitVal_hexDigit in Hb by lia.
    change (digitVal "0") with 0 in Hb. intros ->. change (byteVal x00) with 0 in Hb. lia.
Qed.

(** C3: [toFieldBytes] maps a non-negative integer, given as a bigint or
    as a number, to its minimal big-endian byte string: the bytes denote
    the integer, zero gives the empty string, a positive integer gives a
    string whose first byte is not zero, and 256 gives the two bytes
    01 00. *)
Theorem toFieldBytes_canonical_integer (n : Z) :
  0 <= n ->
  exists bs,
    toFieldBytes (VBigInt n) = Ok bs
    /\ toFieldBytes (VNumber n) = Ok bs
    /\ beValue bs = n
    /\ (n = 0 -> bs = [])
    /\ (forall b rest, bs = b :: rest -> b <> x00)
    /\ (n = 256 -> bs = [x01; x00]).
Proof.
  intros Hn. destruct (Z.eq_dec n 0) as [-> | Hnz].
  - exists []. repeat split; try reflexivity; try discriminate.
  - destruct (toFieldBytes_positive n ltac:(lia)) as (b & rest & Hb & Hv & Hnz').
    exists (b :: rest).
    split; [exact Hb|]. split; [exact Hb|]. split; [exact Hv|].
    split; [intros; lia|]. split.
    + intros b' rest' Heq. injection Heq as <- <-. exact Hnz'.
    + intros ->. vm_compute in Hb. congruence.
Qed.

Lemma toFieldBytes_canonical_integer_witness :
  exists bs,
    toFieldBytes (VBigInt 256) = Ok bs
    /\ toFieldBytes (VNumber 256) = Ok bs
    /\ beValue bs = 256
    /\ (256 = 0 -> bs = [])
    /\ (forall b rest, bs = b :: rest -> b <> x00)
    /\ (256 = 256 -> bs = [x01; x00]).
Proof. apply (toFieldBytes_canonical_integer 256). lia. Defined.

(** C9: [toFieldBytes] raises "Negative values not supported" on every
    negative integer, bigint or number, and raises on undefined and on
    null instead of encoding them. *)
Theorem toFieldBytes_rejects_negative (n : Z) :
  n < 0 ->
  toFieldBytes (VBigInt n) = Err NegativeValue
  /\ toFieldBytes (VNumber n) = Err NegativeValue
  /\ toFieldBytes VUndefined = Err UndefinedValue
  /\ toFieldBytes VNull = Err UndefinedValue.
Proof.
  intros Hn. unfold toFieldBytes.
  destruct (n =? 0) eqn:E0; [apply Z.eqb_eq in E0; lia|].
  destruct (n <? 0) eqn:E1; [|apply Z.ltb_ge in E1; lia].
  repeat split.
Qed.

Lemma toFieldBytes_rejects_negative_witness :
  toFieldBytes (VBigInt (-1)) = Err NegativeValue
  /\ toFieldBytes (VNumber (-1)) = Err NegativeValue
  /\ toFieldBytes VUndefined = Err UndefinedValue
  /\ toFieldBytes VNull = Err UndefinedValue.
Proof. apply (toFieldBytes_rejects_negative (-1)). lia. Defined.

(** ** [toFieldBytes] on strings *)

Lemma nibble_zero (c : ascii) : charCodeToBase16 c = Some 0%N -> c = "0"%char.
Proof.
  destruct c as [[] [] [] [] [] [] [] []]; vm_compute; intros H;
    first [reflexivity | discriminate].
Qed.

Lemma digit_zero (c : ascii) :
  charCodeToBase16 c <> None -> digitVal c = 0 -> c = "0"%char.
Proof.
  unfold digitVal. destruct (charCodeToBase16 c) as [d|] eqn:E; [|congruence].
  intros _ Hd. apply nibble_zero. rewrite E. f_equal. lia.
Qed.

Lemma hexPairs_nil (s : string) : hexPairs s = Ok [] -> s = "".
Proof.
  destruct s as [|c1 [|c2 rest]]; [reflexivity|discriminate|].
  cbn [hexPairs]. destruct (charCodeToBase16 c1); [|discriminate].
  destruct (charCodeToBase16 c2); [|discriminate].
  destruct (hexPairs rest); discriminate.
Qed.

Lemma hexPairs_single_zero (s : string) : hexPairs s = Ok [x00] -> s = "00".
Proof.
  destruct s as [|c1 [|c2 rest]]; [discriminate|discriminate|].
  intros H. destruct (hexPairs_head _ _ _ _ _ H) as (Hb & H1 & H2 & Hrest).
  change (byteVal x00) with 0 in Hb.
  pose proof (digitVal_range c1). pose proof (digitVal_range c2).
  rewrite (digit_zero c1 H1 ltac:(lia)), (digit_zero c2 H2 ltac:(lia)).
  now rewrite (hexPairs_nil _ Hrest).
Qed.

Lemma padEven_00 (t : string) : padEven t = "00" -> t = "0" \/ t = "00".
Proof.
  unfold padEven. destruct (Nat.even (String.length t)).
  - intros ->. now right.
  - intros H. injection H as ->. now left.
Qed.

Lemma startsWith0x_inv (s : string) :
  startsWith0x s = true -> exists rest, s = String "0" (String "x" rest).
Proof.
  unfold startsWith0x. destruct s as [|a [|b rest]]; cbn [String.prefix].
  - discriminate.
  - destruct (ascii_dec "0" a); discriminate.
  - destruct (ascii_dec "0" a) as [<-|]; [|discriminate].
    destruct (ascii_dec "x" b) as [<-|]; [|discriminate].
    intros _. now exists rest.
Qed.

Lemma utf8Char_zero (c : ascii) (bs : bytes) :
  utf8Char c ++ bs = [x00] -> c = zero /\ bs = [].
Proof.
  destruct c as [[] [] [] [] [] [] [] []]; intros H; vm_compute in H;
    first [discriminate | injection H as ->; split; reflexivity].
Qed.

Lemma utf8Encode_nil (s : string) : utf8Encode s = [] -> s = "".
Proof.
  destruct s as [|c rest]; [reflexivity|]. cbn [utf8Encode].
  unfold utf8Char. cbv zeta. destruct (charCode c <? 128)%N; discriminate.
Qed.

Lemma hex_string_not_zero_byte (s : string) :
  startsWith0x s = true -> toFieldBytes (VString s) <> Ok [x00].
Proof.
  intros Hp. unfold toFieldBytes. rewrite Hp.
  destruct ((s =? "") || (s =? "0x") || (s =? "0x0") || (s =? "0x00"))%string
    eqn:E; [discriminate|].
  intros H. destruct (startsWith0x_inv s Hp) as [rest ->].
  unfold hexToBytes in H. cbn [slice2] in H.
  apply hexPairs_single_zero, padEven_00 in H.
  destruct H as [-> | ->]; vm_compute in E; discriminate.
Qed.

(** C10, as amended: the four strings "", "0x", "0x0" and "0x00" map to
    the empty byte string, as the integer 0 does; no string that starts
    with "0x" maps to the single byte 00; the only string that does is the
    one-character string U+0000, through the UTF-8 branch. *)
Theorem toFieldBytes_zero_strings (s : string) :
  (s = "" \/ s = "0x" \/ s = "0x0" \/ s = "0x00" ->
   toFieldBytes (VString s) = Ok []
   /\ toFieldBytes (VString s) = toFieldBytes (VBigInt 0))
  /\ (startsWith0x s = true -> toFieldBytes (VString s) <> Ok [x00])
  /\ (toFieldBytes (VString s) = Ok [x00] <-> s = String zero "").
Proof.
  split; [|split].
  - intros [-> | [-> | [-> | ->]]]; split; reflexivity.
  - apply hex_string_not_zero_byte.
  - split.
    + intros H. destruct (startsWith0x s) eqn:Hp.
      { now apply hex_string_not_zero_byte in H. }
      unfold toFieldBytes in H. rewrite Hp in H.
      destruct ((s =? "") || (s =? "0x") || (s =? "0x0") || (s =? "0x00"))%string;
        [discriminate|].
      injection H as H. destruct s as [|c rest]; [discriminate|].
      cbn [utf8Encode] in H. apply utf8Char_zero in H. destruct H as [-> H].
      now rewrite (utf8Encode_nil _ H).
    + intros ->. reflexivity.
Qed.

(** C10, the claim as stated fails: a string input does produce the one
    literal byte 00, namely the string whose only character is U+0000. *)
Lemma toFieldBytes_string_zero_byte :
  toFieldBytes (VString (String zero "")) = Ok [x00].
Proof. reflexivity. Qed.

(** ** [toNonceBytes] *)

(** C5: on every nonce that decodes to bytes, [toNonceBytes] returns
    exactly 8 bytes: fewer than 8 are left-padded with zero bytes, more
    than 8 are cut to the first 8; a missing nonce and the zero nonce give
    8 zero bytes. *)
Theorem toNonceBytes_fixed_width (s : string) (bs : bytes) :
  hexToBytes s = Ok bs ->
  (exists r,
     toNonceBytes (Some s) = Ok r
     /\ List.length r = 8%nat
     /\ ((List.length bs < 8)%nat ->
         r = List.repeat x00 (8 - List.length bs) ++ bs)
     /\ ((8 <= List.length bs)%nat -> r = List.firstn 8 bs))
  /\ toNonceBytes None = Ok (List.repeat x00 8)
  /\ toNonceBytes (Some "0x0000000000000000") = Ok (List.repeat x00 8).
Proof.
  intros H. split; [|split; reflexivity].
  unfold toNonceBytes.
  destruct ((s =? "") || (s =? "0x0000000000000000"))%string eqn:E.
  - apply orb_true_iff in E.
    assert (Hbs : bs = [] \/ bs = List.repeat x00 8).
    { destruct E as [E | E]; apply String.eqb_eq in E; subst s;
        vm_compute in H; injection H as <-; [left | right]; reflexivity. }
    exists zeroNonce. split; [reflexivity|]. split; [reflexivity|].
    destruct Hbs as [-> | ->]; cbn [List.length List.repeat]; split; intros;
      try lia; reflexivity.
  - rewrite H. cbn [bind].
    destruct (List.length bs =? 8)%nat eqn:E8.
    + apply Nat.eqb_eq in E8. exists bs. split; [reflexivity|].
      split; [exact E8|]. split; [lia|].
      intros _. rewrite <- E8. symmetry. apply List.firstn_all.
    + apply Nat.eqb_neq in E8.
      destruct (List.length bs <? 8)%nat eqn:Elt.
      * apply Nat.ltb_lt in Elt. eexists. split; [reflexivity|].
        split; [|split; [reflexivity | lia]].
        rewrite List.length_app, List.repeat_length. lia.
      * apply Nat.ltb_ge in Elt. eexists. split; [reflexivity|].
        split; [|split; [lia | reflexivity]].
        rewrite List.length_firstn. lia.
Qed.

Lemma toNonceBytes_fixed_width_witness :
  (exists r,
     toNonceBytes (Some "0x01020304") = Ok r
     /\ List.length r = 8%nat
     /\ ((List.length [x01; x02; x03; x04] < 8)%nat ->
         r = List.repeat x00 (8 - List.length [x01; x02; x03; x04])
             ++ [x01; x02; x03; x04])
     /\ ((8 <= List.length [x01; x02; x03; x04])%nat ->
         r = List.firstn 8 [x01; x02; x03; x04]))
  /\ toNonceBytes None = Ok (List.repeat x00 8)
  /\ toNonceBytes (Some "0x0000000000000000") = Ok (List.repeat x00 8).
Proof.
  apply (toNonceBytes_fixed_width "0x01020304" [x01; x02; x03; x04]).
  reflexivity.
Defined.

(** ** Bitmasks and inclusion patterns *)

Lemma toInt32_small (x : Z) : 0 <= x < 2 ^ 31 -> toInt32 x = x.
Proof.
  intros H. unfold toInt32.
  rewrite Z.mod_small; lia.
Qed.

Lemma land_pow2 (m i : Z) :
  0 <= i -> Z.land m (2 ^ i) = if Z.testbit m i then 2 ^ i else 0.
Proof.
  intros Hi. apply Z.bits_inj'. intros j Hj.
  rewrite Z.land_spec, Z.pow2_bits_eqb by assumption.
  destruct (Z.eqb_spec i j) as [<- | Hne].
  - rewrite andb_true_r. destruct (Z.testbit m i) eqn:E.
    + now rewrite Z.pow2_bits_true.
    + now rewrite Z.bits_0.
  - rewrite andb_false_r. destruct (Z.testbit m i).
    + now rewrite Z.pow2_bits_false.
    + now rewrite Z.bits_0.
Qed.

(** [mask & (1 << i)] is truthy exactly when bit [i] of [mask] is set,
    as long as everything fits 31 bits. *)
Lemma mask_bit (mask i : Z) :
  0 <= i < 31 -> 0 <= mask < 2 ^ 31 ->
  (jsAnd mask (jsShl 1 i) =? 0) = negb (Z.testbit mask i).
Proof.
  intros Hi Hm. unfold jsAnd, jsShl.
  assert (Hp : 0 < 2 ^ i < 2 ^ 31).
  { split; [apply Z.pow_pos_nonneg; lia|apply Z.pow_lt_mono_r; lia]. }
  rewrite (toInt32_small 1) by lia.
  rewrite Z.mod_small by lia.
  rewrite Z.shiftl_1_l.
  rewrite !(toInt32_small (2 ^ i)) by lia.
  rewrite (toInt32_small mask) by lia.
  rewrite land_pow2 by lia.
  destruct (Z.testbit mask i); cbn [negb].
  - apply Z.eqb_neq. lia.
  - reflexivity.
Qed.

Lemma jsShl_1 (i : Z) : 0 <= i < 31 -> jsShl 1 i = 2 ^ i.
Proof.
  intros Hi. unfold jsShl.
  assert (Hp : 0 < 2 ^ i < 2 ^ 31).
  { split; [apply Z.pow_pos_nonneg; lia|apply Z.pow_lt_mono_r; lia]. }
  rewrite (toInt32_small 1) by lia.
  rewrite Z.mod_small by lia.
  rewrite Z.shiftl_1_l. apply toInt32_small. lia.
Qed.

Lemma maskOf_range (p : pattern) : 0 <= maskOf p < 2 ^ Z.of_nat (List.length p).
Proof.
  induction p as [|flag p IH]; cbn [maskOf List.length].
  - cbn. lia.
  - replace (Z.of_nat (S (List.length p))) with (Z.of_nat (List.length p) + 1) by lia.
    rewrite Z.pow_add_r by lia. destruct flag; cbn [Z.b2z]; lia.
Qed.

Lemma patternOf_maskOf (p : pattern) : patternOf (List.length p) (maskOf p) = p.
Proof.
  induction p as [|flag p IH]; [reflexivity|].
  cbn [List.length patternOf maskOf]. f_equal.
  - rewrite Z.odd_add_mul_2. now destruct flag.
  - replace ((Z.b2z flag + 2 * maskOf p) / 2) with (maskOf p); [exact IH|].
    rewrite Z.add_comm, Z.mul_comm, Z.div_add_l by lia.
    destruct flag; cbn; lia.
Qed.

Lemma maskOf_patternOf (k : nat) : forall m,
  0 <= m < 2 ^ Z.of_nat k -> maskOf (patternOf k m) = m.
Proof.
  induction k as [|k IH]; intros m Hm.
  - cbn in Hm. cbn. lia.
  - cbn [patternOf maskOf].
    replace (Z.of_nat (S k)) with (Z.of_nat k + 1) in Hm by lia.
    rewrite Z.pow_add_r in Hm by lia.
    rewrite IH.
    + pose proof (Z.div_mod m 2 ltac:(lia)) as Hdm.
      rewrite Zmod_odd in Hdm. destruct (Z.odd m); cbn [Z.b2z]; lia.
    + split; [apply Z.div_pos; lia|apply Z.div_lt_upper_bound; lia].
Qed.

Lemma patternOf_length (k : nat) (m : Z) : List.length (patternOf k m) = k.
Proof. revert m. induction k; intros m; cbn; [reflexivity|now rewrite IHk]. Qed.

(** ** The candidate of a mask is the encoding of its pattern *)

Lemma shiftr_succ_div2 (m i : Z) :
  0 <= i -> Z.shiftr m i / 2 = Z.shiftr m (i + 1).
Proof.
  intros Hi. rewrite !Z.shiftr_div_pow2 by lia.
  rewrite Z.pow_add_r by lia. rewrite Z.div_div by lia. reflexivity.
Qed.

Lemma buildHeader_select (fields : list field) :
  forall mask i headerList included,
  0 <= i -> i + zlength fields <= 31 -> 0 <= mask < 2 ^ 31 ->
  buildHeader mask i fields headerList included
  = (let chosen :=
       selectFields (patternOf (List.length fields) (Z.shiftr mask i)) fields in
     bs <- mapFieldBytes (List.map snd chosen) ;;
     Ok (headerList ++ bs, included ++ List.map fst chosen)).
Proof.
  unfold zlength.
  induction fields as [|[name v] rest IH]; intros mask i hl inc Hi Hlen Hm.
  - cbn. now rewrite !List.app_nil_r.
  - cbn [List.length] in Hlen.
    cbn [buildHeader List.length patternOf selectFields]. cbv zeta.
    rewrite mask_bit by lia. rewrite Z.testbit_odd.
    rewrite shiftr_succ_div2 by lia.
    destruct (Z.odd (Z.shiftr mask i)); cbn [negb].
    + cbn [List.map snd fst mapFieldBytes].
      destruct (toFieldBytes v) as [bs|e]; cbn [bind]; [|reflexivity].
      rewrite IH by lia. cbv zeta.
      destruct (mapFieldBytes _) as [bss|e]; cbn [bind]; [|reflexivity].
      now rewrite <- !List.app_assoc.
    + rewrite IH by lia. reflexivity.
Qed.

Section SearchFacts.

Variable keccak256 : string -> string.
Variable targetHash : option string.
Variable base : list bytes.
Variable available : list field.

(** [bruteforceRLP] offers at most six optional fields; thirty is what
    32-bit masks allow. *)
Hypothesis Hk : (List.length available <= 30)%nat.

Let total : Z := totalCombinations available.
Let k : nat := List.length available.

Lemma total_range : 1 <= total <= 2 ^ 30.
Proof.
  unfold total, totalCombinations, zlength. split.
  - pose proof (Z.pow_pos_nonneg 2 (Z.of_nat (List.length available))). lia.
  - apply Z.pow_le_mono_r; lia.
Qed.

Lemma candidate_pattern (m : Z) :
  0 <= m < total ->
  candidate base available m = patternCandidate base available (patternOf k m).
Proof.
  intros Hm. pose proof total_range as Ht.
  unfold candidate, patternCandidate.
  rewrite buildHeader_select; [|lia|unfold zlength; lia|lia].
  cbv zeta. rewrite Z.shiftr_0_r. fold k.
  destruct (mapFieldBytes _) as [bs|e]; cbn [bind fst snd]; [|reflexivity].
  reflexivity.
Qed.

Lemma candidate_maskOf (p : pattern) :
  List.length p = k ->
  candidate base available (maskOf p) = patternCandidate base available p
  /\ 0 <= maskOf p < total.
Proof.
  intros Hp. pose proof (maskOf_range p) as Hr. rewrite Hp in Hr.
  assert (Hr' : 0 <= maskOf p < total) by exact Hr.
  split; [|exact Hr'].
  rewrite candidate_pattern by exact Hr'.
  unfold k in *. rewrite <- Hp, patternOf_maskOf. reflexivity.
Qed.

(** *** One iteration *)

Lemma tryMask_throw (priority : bool) (m : Z) (st : effects) (e : error) :
  candidate base available m = Err e ->
  tryMask keccak256 targetHash base available priority m st = inl (Throw e, st).
Proof. intros H. unfold tryMask. now rewrite H. Qed.

Lemma tryMask_found (priority : bool) (m : Z) (st : effects)
    (rlp : string) (included : list string) :
  candidate base available m = Ok (rlp, included) ->
  hashMatches targetHash (keccak256 rlp) = true ->
  tryMask keccak256 targetHash base available priority m st
  = inl (Return (Some rlp),
         {| attempts := attempts st ++ [m];
            console := (console st ++ attemptLines available priority m included)
                       ++ foundLines priority m rlp included |}).
Proof.
  intros H Hh. unfold tryMask, attemptLines. rewrite H. cbv zeta. rewrite Hh.
  destruct priority; [|destruct (m mod 10 =? 0)]; cbn;
    rewrite ?List.app_nil_r; reflexivity.
Qed.

Lemma tryMask_next (priority : bool) (m : Z) (st : effects)
    (rlp : string) (included : list string) :
  candidate base available m = Ok (rlp, included) ->
  hashMatches targetHash (keccak256 rlp) = false ->
  tryMask keccak256 targetHash base available priority m st
  = inr {| attempts := attempts st ++ [m];
           console := console st ++ attemptLines available priority m included |}.
Proof.
  intros H Hh. unfold tryMask, attemptLines. rewrite H. cbv zeta. rewrite Hh.
  destruct priority; [|destruct (m mod 10 =? 0)]; cbn;
    rewrite ?List.app_nil_r; reflexivity.
Qed.

(** *** A loop *)

Lemma tryMasks_spec (priority : bool) : forall masks st,
  match tryMasks keccak256 targetHash base available priority masks st with
  | inr st' =>
      attempts st' = attempts st ++ unskipped available priority masks
      /\ (forall m, In m (unskipped available priority masks) ->
                    nonMatching keccak256 targetHash base available m)
  | inl (Throw e, _) =>
      exists m, In m masks /\ candidate base available m = Err e
  | inl (Return (Some rlp), st') =>
      exists m included pre lines,
        In m masks
        /\ candidate base available m = Ok (rlp, included)
        /\ hashMatches targetHash (keccak256 rlp) = true
        /\ attempts st' = attempts st ++ pre ++ [m]
        /\ console st' = console st ++ lines ++ foundLines priority m rlp included
  | inl (Return None, _) => False
  end.
Proof.
  induction masks as [|m rest IH]; intros st.
  - cbn. rewrite List.app_nil_r. split; [reflexivity|intros m []].
  - cbn [tryMasks unskipped List.filter].
    destruct (negb priority && includes (priorityMasks available) m) eqn:Es;
      cbn [negb].
    + specialize (IH st). fold (unskipped available priority rest).
      destruct (tryMasks _ _ _ _ _ rest st) as [[[e|[rlp|]] st']|st'].
      * destruct IH as (m' & Hin & Hc). exists m'. split; [now right|exact Hc].
      * destruct IH as (m' & inc & pre & lines & Hin & Hrest).
        exists m', inc, pre, lines. split; [now right|exact Hrest].
      * exact IH.
      * exact IH.
    + fold (unskipped available priority rest).
      destruct (candidate base available m) as [[rlp inc]|e] eqn:Ec.
      2:{ rewrite (tryMask_throw _ _ _ _ Ec). exists m. split; [now left|exact Ec]. }
      destruct (hashMatches targetHash (keccak256 rlp)) eqn:Eh.
      { rewrite (tryMask_found _ _ _ _ _ Ec Eh).
        exists m, inc, [], (attemptLines available priority m inc).
        cbn [attempts console List.app].
        repeat split; try assumption; [now left|].
        now rewrite List.app_assoc. }
      rewrite (tryMask_next _ _ _ _ _ Ec Eh).
      specialize (IH {| attempts := attempts st ++ [m];
                        console := console st ++ attemptLines available priority m inc |}).
      destruct (tryMasks _ _ _ _ _ rest _) as [[[e|[rlp'|]] st']|st'].
      * destruct IH as (m' & Hin & Hc). exists m'. split; [now right|exact Hc].
      * destruct IH as (m' & inc' & pre & lines & Hin & Hc & Hh & Ha & Hl).
        cbn [attempts console] in Ha, Hl.
        exists m', inc', (m :: pre), (attemptLines available priority m inc ++ lines).
        repeat split; try assumption; [now right| |].
        -- rewrite Ha, <- List.app_assoc. reflexivity.
        -- rewrite Hl, <- !List.app_assoc. reflexivity.
      * exact IH.
      * destruct IH as [Ha Hn]. cbn [attempts] in Ha. split.
        -- rewrite Ha, <- List.app_assoc. reflexivity.
        -- intros m' [<- | Hin]; [now exists rlp, inc|now apply Hn].
Qed.

End SearchFacts.

(** ** The whole search *)

Lemma In_countTo (n m : Z) : In m (countTo n) <-> 0 <= m < n.
Proof.
  unfold countTo. rewrite List.in_map_iff. split.
  - intros (i & <- & Hi). apply List.in_seq in Hi. lia.
  - intros Hm. exists (Z.to_nat m). split; [lia|]. apply List.in_seq. lia.
Qed.

Lemma includes_In (l : list Z) (x : Z) : includes l x = true <-> In x l.
Proof.
  unfold includes. rewrite List.existsb_exists. split.
  - intros (y & Hy & E). apply Z.eqb_eq in E. now subst.
  - intros H. exists x. split; [exact H|apply Z.eqb_refl].
Qed.

Lemma findIndex_range (p : field -> bool) (l : list field) : forall i,
  List.existsb p l = true -> i <= findIndex p l i < i + zlength l.
Proof.
  unfold zlength. induction l as [|f rest IH]; intros i H; [discriminate|].
  cbn [List.existsb findIndex List.length] in *.
  destruct (p f); [lia|]. cbn [orb] in H. specialize (IH (i + 1) H). lia.
Qed.

Lemma unskipped_priority (available : list field) (masks : list Z) :
  unskipped available true masks = masks.
Proof.
  unfold unskipped. cbn [negb andb].
  induction masks as [|m rest IH]; [reflexivity|]. cbn. now rewrite IH.
Qed.

Lemma In_unskipped (available : list field) (masks : list Z) (m : Z) :
  In m (unskipped available false masks)
  <-> In m masks /\ ~ In m (priorityMasks available).
Proof.
  unfold unskipped. rewrite List.filter_In. cbn [negb andb].
  rewrite negb_true_iff, <- (includes_In (priorityMasks available)).
  destruct (includes (priorityMasks available) m); intuition congruence.
Qed.

Section SearchSpec.

Variable keccak256 : string -> string.
Variable targetHash : option string.
Variable base : list bytes.
Variable available : list field.
Hypothesis Hk : (List.length available <= 30)%nat.

Let total : Z := totalCombinations available.

Lemma priorityMasks_range (m : Z) :
  In m (priorityMasks available) -> 0 <= m < total.
Proof.
  pose proof (total_range available Hk) as Ht. fold total in Ht.
  unfold priorityMasks. intros H. apply List.in_app_or in H.
  destruct H as [H | H].
  - destruct (List.existsb isBaseFee available) eqn:E; [|destruct H].
    destruct H as [<- | []].
    pose proof (findIndex_range isBaseFee available 0 E) as Hi.
    unfold zlength in Hi. rewrite jsShl_1 by lia.
    split; [apply Z.pow_nonneg; lia|].
    unfold total, totalCombinations, zlength. apply Z.pow_lt_mono_r; lia.
  - fold total in H. destruct (total >? 1); [|destruct H].
    destruct H as [<- | []]. lia.
Qed.

(** What each way of ending the search says about the candidates. *)
Lemma search_spec :
  match search keccak256 targetHash base available with
  | (Throw e, _) =>
      exists m, 0 <= m < total /\ candidate base available m = Err e
  | (Return (Some rlp), st) =>
      exists m included pre lines priority,
        0 <= m < total
        /\ candidate base available m = Ok (rlp, included)
        /\ hashMatches targetHash (keccak256 rlp) = true
        /\ attempts st = pre ++ [m]
        /\ console st = lines ++ foundLines priority m rlp included
  | (Return None, st) =>
      forall m, 0 <= m < total ->
        In m (attempts st)
        /\ nonMatching keccak256 targetHash base available m
  end.
Proof.
  unfold search. cbv zeta.
  set (st0 := logged _ noEffects).
  pose proof (tryMasks_spec keccak256 targetHash base available true
                (priorityMasks available) st0) as H1.
  destruct (tryMasks _ _ _ _ true _ st0) as [[[e|[rlp|]] st1]|st1].
  - destruct H1 as (m & Hin & Hc). exists m.
    split; [now apply priorityMasks_range|exact Hc].
  - destruct H1 as (m & inc & pre & lines & Hin & Hc & Hh & Ha & Hl).
    exists m, inc, pre, (console st0 ++ lines), true.
    repeat split; try assumption; now apply priorityMasks_range.
  - destruct H1.
  - destruct H1 as [Ha1 Hn1]. rewrite unskipped_priority in Ha1, Hn1.
    cbn [attempts st0 logged noEffects List.app] in Ha1.
    pose proof (tryMasks_spec keccak256 targetHash base available false
                  (countTo (totalCombinations available)) st1) as H2.
    destruct (tryMasks _ _ _ _ false _ st1) as [[[e|[rlp|]] st2]|st2].
    + destruct H2 as (m & Hin & Hc). exists m.
      split; [now apply In_countTo|exact Hc].
    + destruct H2 as (m & inc & pre & lines & Hin & Hc & Hh & Ha & Hl).
      exists m, inc, (attempts st1 ++ pre), (console st1 ++ lines), false.
      repeat split; try assumption; try (now apply In_countTo in Hin).
      * now rewrite Ha, List.app_assoc.
      * now rewrite Hl, List.app_assoc.
    + destruct H2.
    + destruct H2 as [Ha2 Hn2]. intros m Hm. cbn [logged attempts snd].
      destruct (includes (priorityMasks available) m) eqn:Ei.
      * apply includes_In in Ei. split; [|now apply Hn1].
        rewrite Ha2, Ha1. apply List.in_or_app. now left.
      * assert (Hu : In m (unskipped available false
                              (countTo (totalCombinations available)))).
        { apply In_unskipped. split; [now apply In_countTo|].
          intros Hc. apply includes_In in Hc. congruence. }
        split; [|now apply Hn2].
        rewrite Ha2. apply List.in_or_app. now right.
Qed.

(** The first priority mask decides the search when its hash matches. *)
Lemma search_first_priority (m : Z) (rest : list Z)
    (rlp : string) (included : list string) :
  priorityMasks available = m :: rest ->
  candidate base available m = Ok (rlp, included) ->
  hashMatches targetHash (keccak256 rlp) = true ->
  search keccak256 targetHash base available
  = (Return (Some rlp),
     {| attempts := [m];
        console :=
          [LogTesting total (List.length available);
           LogAvailable (List.map fst available);
           LogPriorityMask m included]
          ++ foundLines true m rlp included |}).
Proof.
  intros Hp Hc Hh. unfold search. cbv zeta. rewrite Hp.
  cbn [tryMasks negb andb]. rewrite (tryMask_found _ _ _ _ _ _ _ _ _ Hc Hh).
  reflexivity.
Qed.

End SearchSpec.

(** ** [bruteforceRLP] on a fetched block *)

Lemma available_length (b : Block) :
  (List.length (availableOptionalFields b) <= 6)%nat.
Proof.
  unfold availableOptionalFields.
  etransitivity; [apply List.filter_length_le|]. reflexivity.
Qed.

Lemma available_length_30 (b : Block) :
  (List.length (availableOptionalFields b) <= 30)%nat.
Proof. pose proof (available_length b). lia. Qed.

Lemma bruteforceRLP_search (keccak256 : string -> string) (b : Block)
    (base : list bytes) :
  headerInputs b = Ok base ->
  bruteforceRLP keccak256 (Some b)
  = search keccak256 (hash b) base (availableOptionalFields b).
Proof.
  unfold headerInputs, bruteforceRLP.
  destruct (processLogsBloom (logsBloom b)) as [bloom|e]; cbn [bind];
    [|discriminate].
  now intros ->.
Qed.

Lemma hashMatches_sameHash (target : option string) (h : string) :
  hashMatches target h = true <-> sameHash h target.
Proof.
  unfold hashMatches, sameHash. destruct target as [t|].
  - rewrite String.eqb_eq. split.
    + intros H. now exists t.
    + intros (t' & [= <-] & H). exact H.
  - split; [discriminate|]. intros (t & [=] & _).
Qed.

Lemma hashMatches_self (keccak256 : string -> string) (rlp : string) :
  hashMatches (Some (keccak256 rlp)) (keccak256 rlp) = true.
Proof. apply String.eqb_refl. Qed.

(** What each way of ending [bruteforceRLP] says about the inclusion
    patterns of the block. *)
Lemma bruteforceRLP_cases (keccak256 : string -> string) (b : Block)
    (base : list bytes) :
  headerInputs b = Ok base ->
  match bruteforceRLP keccak256 (Some b) with
  | (Throw e, _) =>
      exists p,
        List.length p = List.length (availableOptionalFields b)
        /\ patternCandidate base (availableOptionalFields b) p = Err e
  | (Return (Some rlp), st) =>
      exists p included pre lines priority,
        List.length p = List.length (availableOptionalFields b)
        /\ patternCandidate base (availableOptionalFields b) p
           = Ok (rlp, included)
        /\ sameHash (keccak256 rlp) (hash b)
        /\ attempts st = pre ++ [maskOf p]
        /\ console st = lines ++ foundLines priority (maskOf p) rlp included
  | (Return None, st) =>
      forall p,
        List.length p = List.length (availableOptionalFields b) ->
        In (maskOf p) (attempts st)
        /\ exists rlp included,
             patternCandidate base (availableOptionalFields b) p
             = Ok (rlp, included)
             /\ ~ sameHash (keccak256 rlp) (hash b)
  end.
Proof.
  intros Hb. rewrite (bruteforceRLP_search _ _ _ Hb).
  pose proof (available_length_30 b) as Hk.
  pose proof (search_spec keccak256 (hash b) base _ Hk) as S.
  destruct (search _ _ _ _) as [[e|[rlp|]] st].
  - destruct S as (m & Hm & Hc).
    rewrite (candidate_pattern _ _ Hk _ Hm) in Hc.
    eexists. split; [apply patternOf_length|exact Hc].
  - destruct S as (m & inc & pre & lines & priority & Hm & Hc & Hh & Ha & Hl).
    rewrite (candidate_pattern _ _ Hk _ Hm) in Hc.
    exists (patternOf (List.length (availableOptionalFields b)) m),
      inc, pre, lines, priority.
    rewrite (maskOf_patternOf _ _ Hm).
    split; [apply patternOf_length|]. split; [exact Hc|].
    split; [now apply hashMatches_sameHash|]. now split.
  - intros p Hp.
    destruct (candidate_maskOf base _ Hk p Hp) as [Hc Hm].
    destruct (S _ Hm) as (Hin & rlp & inc & Hc' & Hh).
    split; [exact Hin|]. exists rlp, inc. rewrite <- Hc. split; [exact Hc'|].
    intros Hs. apply hashMatches_sameHash in Hs. congruence.
Qed.

(** ** Round trip (C1) *)

(** C1: the code on a block whose base fee is null, which is how the
    client reports a block from before the fee market.  The field passes
    the test [!== undefined] of line 239 and counts as available; the
    mandatory-only pattern encodes, and with its hash as the target the
    round trip calls for that encoding.  The search instead raises at the
    first priority mask, in [toFieldBytes] (line 283), before anything is
    hashed, whatever the hash function. *)
Lemma roundtrip_fails_on_null_base_fee :
  exists base rlp,
    headerInputs (sampleBlock 256 None VNull VUndefined) = Ok base
    /\ patternCandidate base
         (availableOptionalFields (sampleBlock 256 None VNull VUndefined))
         [false] = Ok (rlp, [])
    /\ forall keccak256 : string -> string,
         result
           (bruteforceRLP keccak256
              (Some (sampleBlock 256 (Some (keccak256 rlp)) VNull VUndefined)))
         = Throw UndefinedValue
         /\ tried
              (bruteforceRLP keccak256
                 (Some (sampleBlock 256 (Some (keccak256 rlp)) VNull
                          VUndefined)))
            = [].
Proof.
  exists sampleBase, (sampleRlp []).
  split; [vm_compute; reflexivity|]. split; [vm_compute; reflexivity|].
  intros keccak256. split; vm_compute; reflexivity.
Qed.

(** ** Not found (C2) *)

Lemma toLowerCase_length (s : string) :
  String.length (toLowerCase s) = String.length s.
Proof. induction s as [|c s IH]; cbn; [reflexivity|now rewrite IH]. Qed.

Lemma append_length (s1 s2 : string) :
  String.length (s1 ++ s2)%string = (String.length s1 + String.length s2)%nat.
Proof. induction s1 as [|c s1 IH]; cbn; [reflexivity|now rewrite IH]. Qed.

Lemma corrupted_hash_differs (h : string) : ~ sameHash h (Some (h ++ "!")%string).
Proof.
  intros (t & Ht & Hs). injection Ht as <-.
  apply (f_equal String.length) in Hs.
  rewrite !toLowerCase_length, append_length in Hs. cbn in Hs. lia.
Qed.

(** X20: [bruteforceRLP] never returns a false positive, and reports
    not-found only after exhausting the patterns: an encoding it returns
    is the encoding of one of the 2^k inclusion patterns and hashes to the
    target; when it returns null, every one of the 2^k patterns has been
    encoded and hashed, and none hashed to the target. *)
Theorem no_false_positive_null_exhaustive (keccak256 : string -> string)
    (b : Block) (base : list bytes) :
  headerInputs b = Ok base ->
  (forall rlp,
     result (bruteforceRLP keccak256 (Some b)) = Return (Some rlp) ->
     sameHash (keccak256 rlp) (hash b)
     /\ exists p included,
          List.length p = List.length (availableOptionalFields b)
          /\ patternCandidate base (availableOptionalFields b) p
             = Ok (rlp, included))
  /\ (result (bruteforceRLP keccak256 (Some b)) = Return None ->
      forall p,
        List.length p = List.length (availableOptionalFields b) ->
        In (maskOf p) (tried (bruteforceRLP keccak256 (Some b)))
        /\ exists rlp included,
             patternCandidate base (availableOptionalFields b) p
             = Ok (rlp, included)
             /\ ~ sameHash (keccak256 rlp) (hash b)).
Proof.
  intros Hb.
  pose proof (bruteforceRLP_cases keccak256 b base Hb) as C.
  unfold result, tried.
  destruct (bruteforceRLP keccak256 (Some b)) as [[e|[rlp'|]] st];
    cbn [fst snd].
  - split; discriminate.
  - destruct C as (q & inc & _ & _ & _ & Hq & Hq' & Hs & _).
    split; [|discriminate].
    intros rlp [= <-]. split; [exact Hs|]. now exists q, inc.
  - split; [discriminate|]. intros _. exact C.
Qed.

Lemma no_false_positive_null_exhaustive_witness :
  (forall rlp,
     result (bruteforceRLP standInHash
               (Some (sampleBlock 256 (Some "0xdeadbeef") (VBigInt 7)
                        VUndefined)))
     = Return (Some rlp) ->
     sameHash (standInHash rlp) (Some "0xdeadbeef")
     /\ exists p included,
          List.length p
          = List.length
              (availableOptionalFields
                 (sampleBlock 256 (Some "0xdeadbeef") (VBigInt 7) VUndefined))
          /\ patternCandidate sampleBase
               (availableOptionalFields
                  (sampleBlock 256 (Some "0xdeadbeef") (VBigInt 7) VUndefined))
               p
             = Ok (rlp, included))
  /\ (result (bruteforceRLP standInHash
                (Some (sampleBlock 256 (Some "0xdeadbeef") (VBigInt 7)
                         VUndefined)))
      = Return None ->
      forall p,
        List.length p
        = List.length
            (availableOptionalFields
               (sampleBlock 256 (Some "0xdeadbeef") (VBigInt 7) VUndefined)) ->
        In (maskOf p)
          (tried (bruteforceRLP standInHash
                    (Some (sampleBlock 256 (Some "0xdeadbeef") (VBigInt 7)
                             VUndefined))))
        /\ exists rlp included,
             patternCandidate sampleBase
               (availableOptionalFields
                  (sampleBlock 256 (Some "0xdeadbeef") (VBigInt 7) VUndefined))
               p
             = Ok (rlp, included)
             /\ ~ sameHash (standInHash rlp) (Some "0xdeadbeef")).
Proof.
  apply (no_false_positive_null_exhaustive standInHash
           (sampleBlock 256 (Some "0xdeadbeef") (VBigInt 7) VUndefined)
           sampleBase).
  vm_compute. reflexivity.
Defined.

(** C2: the code on the block with a null base fee and a target that no
    pattern reproduces.  The mandatory-only pattern encodes to a hash that
    is not the (corrupted) target, the pattern with the base fee cannot
    be encoded at all, so no pattern hashes to the target and not-found is
    called for.  The search does not return null: it raises in
    [toFieldBytes] at the first priority mask. *)
Lemma not_found_fails_on_null_base_fee :
  exists base rlp,
    headerInputs (sampleBlock 256 None VNull VUndefined) = Ok base
    /\ patternCandidate base
         (availableOptionalFields (sampleBlock 256 None VNull VUndefined))
         [false] = Ok (rlp, [])
    /\ patternCandidate base
         (availableOptionalFields (sampleBlock 256 None VNull VUndefined))
         [true] = Err UndefinedValue
    /\ forall keccak256 : string -> string,
         ~ sameHash (keccak256 rlp) (Some (keccak256 rlp ++ "!")%string)
         /\ result
              (bruteforceRLP keccak256
                 (Some (sampleBlock 256 (Some (keccak256 rlp ++ "!")%string)
                          VNull VUndefined)))
            = Throw UndefinedValue.
Proof.
  exists sampleBase, (sampleRlp []).
  split; [vm_compute; reflexivity|]. split; [vm_compute; reflexivity|].
  split; [vm_compute; reflexivity|].
  intros keccak256. split; [apply corrupted_hash_differs|].
  vm_compute. reflexivity.
Qed.

(** ** The logsBloom check (C4) *)

(** C4: when the block carries a logsBloom (a non-empty string) that
    decodes to other than 256 bytes, [bruteforceRLP] raises before
    anything is hashed or printed by the search; when it decodes to exactly
    256 bytes the check accepts it and, the mandatory fields encoded, the
    search runs. *)
Theorem logsBloom_length_checked (keccak256 : string -> string) (b : Block)
    (s : string) (bloomBytes : bytes) :
  logsBloom b = Some s -> s <> "" ->
  hexToBytes (removeWhitespace s) = Ok bloomBytes ->
  (List.length bloomBytes <> 256%nat ->
   bruteforceRLP keccak256 (Some b)
   = (Throw (InvalidLogsBloomLength (List.length bloomBytes)), noEffects))
  /\ (List.length bloomBytes = 256%nat ->
      processLogsBloom (logsBloom b) = Ok (VString (removeWhitespace s))
      /\ forall base,
           baseFields b (VString (removeWhitespace s)) = Ok base ->
           bruteforceRLP keccak256 (Some b)
           = search keccak256 (hash b) base (availableOptionalFields b)).
Proof.
  intros Hl Hs Hx.
  assert (E : (s =? "")%string = false) by now apply String.eqb_neq.
  unfold bruteforceRLP, processLogsBloom. rewrite Hl, E, Hx. cbn [bind].
  split; intros Hn.
  - apply Nat.eqb_neq in Hn. now rewrite Hn.
  - rewrite Hn. cbn [Nat.eqb]. split; [reflexivity|]. now intros base ->.
Qed.

Lemma logsBloom_length_checked_witness :
  bruteforceRLP standInHash
    (Some (sampleBlock 255 (Some "0xdeadbeef") (VBigInt 7) VUndefined))
  = (Throw (InvalidLogsBloomLength 255), noEffects)
  /\ bruteforceRLP standInHash
       (Some (sampleBlock 257 (Some "0xdeadbeef") (VBigInt 7) VUndefined))
     = (Throw (InvalidLogsBloomLength 257), noEffects).
Proof.
  split.
  - apply (logsBloom_length_checked standInHash
             (sampleBlock 255 (Some "0xdeadbeef") (VBigInt 7) VUndefined)
             ("0x" ++ zeroDigits 510) (List.repeat x00 255));
      [reflexivity|discriminate|vm_compute; reflexivity
      |vm_compute; discriminate].
  - apply (logsBloom_length_checked standInHash
             (sampleBlock 257 (Some "0xdeadbeef") (VBigInt 7) VUndefined)
             ("0x" ++ zeroDigits 514) (List.repeat x00 257));
      [reflexivity|discriminate|vm_compute; reflexivity
      |vm_compute; discriminate].
Defined.

(** ** The priority fast path (C6) *)

Lemma patternOf_zero (n : nat) : patternOf n 0 = List.repeat false n.
Proof. induction n as [|n IH]; [reflexivity|]. cbn. now rewrite IH. Qed.

Lemma selectFields_none (n : nat) (fields : list field) :
  selectFields (List.repeat false n) fields = [].
Proof.
  revert fields. induction n as [|n IH]; intros [|f rest]; cbn; auto.
Qed.

Lemma available_base_fee (b : Block) :
  isDefined (baseFeePerGas b) = true ->
  exists rest,
    availableOptionalFields b = ("baseFeePerGas", baseFeePerGas b) :: rest.
Proof.
  intros H. unfold availableOptionalFields, optionalFields.
  cbn [List.filter snd]. rewrite H. eexists. reflexivity.
Qed.

(** C6: when the base fee is available and the target is the hash of the
    encoding with the base fee as the only optional field, the priority
    masks are the base-fee-only mask and then the all-fields mask, and the
    search returns that encoding on its first attempt. *)
Theorem base_fee_only_fast_path (keccak256 : string -> string) (b : Block)
    (base : list bytes) (fee : bytes) (rlp : string) :
  headerInputs b = Ok base ->
  toFieldBytes (baseFeePerGas b) = Ok fee ->
  toRlp (base ++ [fee]) = Ok rlp ->
  hash b = Some (keccak256 rlp) ->
  patternCandidate base (availableOptionalFields b)
    (true :: List.repeat false (List.length (availableOptionalFields b) - 1))
  = Ok (rlp, ["baseFeePerGas"])
  /\ priorityMasks (availableOptionalFields b)
     = [1; 2 ^ zlength (availableOptionalFields b) - 1]
  /\ result (bruteforceRLP keccak256 (Some b)) = Return (Some rlp)
  /\ tried (bruteforceRLP keccak256 (Some b)) = [1].
Proof.
  intros Hb Hfee Hrlp Hh.
  assert (Hdef : isDefined (baseFeePerGas b) = true).
  { destruct (baseFeePerGas b); try reflexivity. discriminate. }
  pose proof (available_length_30 b) as Hk.
  destruct (available_base_fee b Hdef) as [rest Ha].
  rewrite (bruteforceRLP_search _ _ _ Hb). rewrite Ha in *.
  cbn [List.length] in Hk.
  assert (Ht : 2 <= totalCombinations
                      (("baseFeePerGas", baseFeePerGas b) :: rest)).
  { unfold totalCombinations, zlength. cbn [List.length].
    rewrite Nat2Z.inj_succ, Z.pow_succ_r by lia.
    assert (0 < 2 ^ Z.of_nat (List.length rest))
      by (apply Z.pow_pos_nonneg; lia).
    lia. }
  assert (Hpat : patternCandidate base
                   (("baseFeePerGas", baseFeePerGas b) :: rest)
                   (true :: List.repeat false (List.length rest))
                 = Ok (rlp, ["baseFeePerGas"])).
  { unfold patternCandidate. cbn [selectFields]. rewrite selectFields_none.
    cbn [List.map snd fst mapFieldBytes]. rewrite Hfee. cbn [bind].
    rewrite Hrlp. reflexivity. }
  assert (Hpri : priorityMasks (("baseFeePerGas", baseFeePerGas b) :: rest)
                 = [1; 2 ^ zlength (("baseFeePerGas", baseFeePerGas b) :: rest) - 1]).
  { unfold priorityMasks. cbn [List.existsb findIndex].
    change (isBaseFee ("baseFeePerGas", baseFeePerGas b)) with true.
    cbn [orb]. change (jsShl 1 0) with 1.
    fold (totalCombinations (("baseFeePerGas", baseFeePerGas b) :: rest)).
    destruct (Z.gtb_spec
                (totalCombinations (("baseFeePerGas", baseFeePerGas b) :: rest)) 1);
      [reflexivity|lia]. }
  assert (Hc : candidate base (("baseFeePerGas", baseFeePerGas b) :: rest) 1
               = Ok (rlp, ["baseFeePerGas"])).
  { rewrite candidate_pattern; [|cbn [List.length]; lia|lia].
    cbn [List.length patternOf]. change (Z.odd 1) with true.
    change (1 / 2) with 0. rewrite patternOf_zero. exact Hpat. }
  cbn [List.length Nat.sub]. rewrite Nat.sub_0_r.
  split; [exact Hpat|]. split; [exact Hpri|].
  rewrite (search_first_priority keccak256 (hash b) base _ 1 _ rlp
             ["baseFeePerGas"] Hpri Hc).
  - split; reflexivity.
  - rewrite Hh. apply hashMatches_self.
Qed.

Lemma base_fee_only_fast_path_witness :
  result (bruteforceRLP standInHash
            (Some (sampleBlock 256 (Some (standInHash (sampleRlp [[x07]])))
                     (VBigInt 7) (hash32 "6"))))
  = Return (Some (sampleRlp [[x07]]))
  /\ tried (bruteforceRLP standInHash
              (Some (sampleBlock 256 (Some (standInHash (sampleRlp [[x07]])))
                       (VBigInt 7) (hash32 "6"))))
     = [1].
Proof.
  apply (base_fee_only_fast_path standInHash
           (sampleBlock 256 (Some (standInHash (sampleRlp [[x07]])))
              (VBigInt 7) (hash32 "6"))
           sampleBase [x07] (sampleRlp [[x07]]));
    vm_compute; reflexivity.
Defined.

(** ** Blocks with the same fields *)

(** In the model, where the console holds the lines of the search
    (line 259 on), two blocks that agree on the target hash, the
    mandatory field values (defaults applied) and the optional field
    values give the same run. *)
Lemma bruteforceRLP_same_fields (keccak256 : string -> string)
    (b1 b2 : Block) :
  hash b1 = hash b2 ->
  logsBloom b1 = logsBloom b2 ->
  (forall bloom, mandatoryValues b1 bloom = mandatoryValues b2 bloom) ->
  nonceOrDefault b1 = nonceOrDefault b2 ->
  optionalFields b1 = optionalFields b2 ->
  bruteforceRLP keccak256 (Some b1) = bruteforceRLP keccak256 (Some b2).
Proof.
  intros Hh Hl Hm Hn Ho.
  unfold bruteforceRLP, baseFields, availableOptionalFields.
  rewrite Hh, Hl, Hn, Ho.
  destruct (processLogsBloom (logsBloom b2)) as [bloom|e]; [|reflexivity].
  rewrite (Hm bloom). reflexivity.
Qed.

(** ** The returned value (C8) *)

(** C8, as amended: on success the returned value is exactly the RLP
    encoding of the mandatory fields followed by the optional fields of
    one inclusion pattern, and its hash is the target; the names of the
    included fields are printed to the console with the match, and are not
    part of the returned value. *)
Theorem bruteforceRLP_success (keccak256 : string -> string) (b : Block)
    (base : list bytes) (rlp : string) :
  headerInputs b = Ok base ->
  result (bruteforceRLP keccak256 (Some b)) = Return (Some rlp) ->
  exists p included,
    List.length p = List.length (availableOptionalFields b)
    /\ patternCandidate base (availableOptionalFields b) p = Ok (rlp, included)
    /\ included = List.map fst (selectFields p (availableOptionalFields b))
    /\ sameHash (keccak256 rlp) (hash b)
    /\ (exists pre, tried (bruteforceRLP keccak256 (Some b)) = pre ++ [maskOf p])
    /\ (exists lines priority,
          printed (bruteforceRLP keccak256 (Some b))
          = lines ++ [LogFound priority (maskOf p); LogIncluded included;
                      LogRlpBytes rlp; LogRlpLength (rlpLength rlp)]).
Proof.
  intros Hb Hr.
  pose proof (bruteforceRLP_cases keccak256 b base Hb) as C.
  unfold result, tried, printed in *.
  destruct (bruteforceRLP keccak256 (Some b)) as [[e|[rlp'|]] st];
    cbn [fst snd] in *; try discriminate.
  injection Hr as ->.
  destruct C as (p & inc & pre & lines & priority & Hp & Hc & Hs & Ha & Hl).
  exists p, inc. split; [exact Hp|]. split; [exact Hc|]. split.
  - unfold patternCandidate in Hc.
    destruct (mapFieldBytes _) as [bs|]; cbn [bind] in Hc; [|discriminate].
    destruct (toRlp _); cbn [bind] in Hc; [|discriminate]. congruence.
  - split; [exact Hs|]. split; [now exists pre|]. now exists lines, priority.
Qed.

Lemma bruteforceRLP_success_witness :
  exists p included,
    List.length p = 1%nat
    /\ patternCandidate sampleBase [("baseFeePerGas", VBigInt 7)] p
       = Ok (sampleRlp [], included)
    /\ included = List.map fst (selectFields p [("baseFeePerGas", VBigInt 7)])
    /\ sameHash (standInHash (sampleRlp []))
         (Some (standInHash (sampleRlp [])))
    /\ (exists pre,
          tried (bruteforceRLP standInHash
                   (Some (sampleBlock 256 (Some (standInHash (sampleRlp [])))
                            (VBigInt 7) VUndefined)))
          = pre ++ [maskOf p])
    /\ (exists lines priority,
          printed (bruteforceRLP standInHash
                     (Some (sampleBlock 256 (Some (standInHash (sampleRlp [])))
                              (VBigInt 7) VUndefined)))
          = lines ++ [LogFound priority (maskOf p); LogIncluded included;
                      LogRlpBytes (sampleRlp []);
                      LogRlpLength (rlpLength (sampleRlp []))]).
Proof.
  apply (bruteforceRLP_success standInHash
           (sampleBlock 256 (Some (standInHash (sampleRlp [])))
              (VBigInt 7) VUndefined)
           sampleBase (sampleRlp []));
    vm_compute; reflexivity.
Defined.

(** C8, the claim as stated fails: two blocks with the same mandatory
    fields, one with only a base fee of 1 and one with only a withdrawals
    root of 01, make [bruteforceRLP] return the same value while the
    included fields differ; the returned value does not tell which
    optional fields were included. *)
Lemma returned_value_omits_included_fields :
  exists rlp,
    forall keccak256 : string -> string,
      result (bruteforceRLP keccak256
                (Some (sampleBlock 256 (Some (keccak256 rlp))
                         (VBigInt 1) VUndefined)))
      = Return (Some rlp)
      /\ result (bruteforceRLP keccak256
                   (Some (sampleBlock 256 (Some (keccak256 rlp))
                            VUndefined (VString "0x01"))))
         = Return (Some rlp)
      /\ In (LogIncluded ["baseFeePerGas"])
            (printed (bruteforceRLP keccak256
                        (Some (sampleBlock 256 (Some (keccak256 rlp))
                                 (VBigInt 1) VUndefined))))
      /\ In (LogIncluded ["withdrawalsRoot"])
            (printed (bruteforceRLP keccak256
                        (Some (sampleBlock 256 (Some (keccak256 rlp))
                                 VUndefined (VString "0x01"))))).
Proof.
  exists (sampleRlp [[x01]]). intros keccak256.
  rewrite (bruteforceRLP_search keccak256 _ sampleBase)
    by (vm_compute; reflexivity).
  rewrite (bruteforceRLP_search keccak256 _ sampleBase)
    by (vm_compute; reflexivity).
  cbn [hash sampleBlock].
  rewrite (search_first_priority keccak256 _ sampleBase _ 1 [1]
             (sampleRlp [[x01]]) ["baseFeePerGas"]);
    [|vm_compute; reflexivity|vm_compute; reflexivity|apply hashMatches_self].
  rewrite (search_first_priority keccak256 _ sampleBase _ 1 []
             (sampleRlp [[x01]]) ["withdrawalsRoot"]);
    [|vm_compute; reflexivity|vm_compute; reflexivity|apply hashMatches_self].
  unfold result, printed. cbn [fst snd console foundLines List.app].
  repeat split; cbn; auto 10.
Qed.

(** ** A block without optional fields *)

(** X1: when no optional field is available (a block from before the
    forks) there is no priority mask, and the search hashes exactly one
    candidate, the mandatory fields alone, whatever the target: the
    encoding is returned if its hash is the target, and null otherwise. *)
Theorem no_optional_fields_single_attempt (keccak256 : string -> string)
    (b : Block) (base : list bytes) (rlp : string) :
  headerInputs b = Ok base ->
  availableOptionalFields b = [] ->
  toRlp base = Ok rlp ->
  priorityMasks (availableOptionalFields b) = []
  /\ tried (bruteforceRLP keccak256 (Some b)) = [0]
  /\ (sameHash (keccak256 rlp) (hash b) ->
      result (bruteforceRLP keccak256 (Some b)) = Return (Some rlp))
  /\ (~ sameHash (keccak256 rlp) (hash b) ->
      result (bruteforceRLP keccak256 (Some b)) = Return None)
  /\ (hash b = Some (keccak256 rlp) ->
      result (bruteforceRLP keccak256 (Some b)) = Return (Some rlp)).
Proof.
  intros Hb Ha Hrlp.
  rewrite (bruteforceRLP_search _ _ _ Hb), Ha.
  split; [reflexivity|].
  unfold search. cbv zeta.
  change (priorityMasks []) with (@nil Z).
  change (countTo (totalCombinations [])) with [0].
  cbn [tryMasks negb andb includes List.existsb].
  assert (Hc : candidate base [] 0 = Ok (rlp, [])).
  { unfold candidate. cbn [buildHeader bind fst snd]. now rewrite Hrlp. }
  destruct (hashMatches (hash b) (keccak256 rlp)) eqn:Eh.
  - rewrite (tryMask_found keccak256 (hash b) base [] false 0 _ rlp [] Hc Eh).
    split; [reflexivity|]. split; [reflexivity|]. split; [|reflexivity].
    intros Hn. exfalso. apply Hn. now apply hashMatches_sameHash.
  - rewrite (tryMask_next keccak256 (hash b) base [] false 0 _ rlp [] Hc Eh).
    assert (Hn : ~ sameHash (keccak256 rlp) (hash b)).
    { intros Hs. apply hashMatches_sameHash in Hs. congruence. }
    split; [reflexivity|]. split; [now intros Hs|]. split; [reflexivity|].
    intros Hh. exfalso. rewrite Hh, hashMatches_self in Eh. discriminate.
Qed.

Lemma no_optional_fields_single_attempt_witness :
  priorityMasks
    (availableOptionalFields
       (sampleBlock 256 (Some "0xdeadbeef") VUndefined VUndefined))
  = []
  /\ tried (bruteforceRLP standInHash
              (Some (sampleBlock 256 (Some "0xdeadbeef")
                       VUndefined VUndefined)))
     = [0]
  /\ (sameHash (standInHash (sampleRlp [])) (Some "0xdeadbeef") ->
      result (bruteforceRLP standInHash
                (Some (sampleBlock 256 (Some "0xdeadbeef")
                         VUndefined VUndefined)))
      = Return (Some (sampleRlp [])))
  /\ (~ sameHash (standInHash (sampleRlp [])) (Some "0xdeadbeef") ->
      result (bruteforceRLP standInHash
                (Some (sampleBlock 256 (Some "0xdeadbeef")
                         VUndefined VUndefined)))
      = Return None)
  /\ (Some "0xdeadbeef" = Some (standInHash (sampleRlp [])) ->
      result (bruteforceRLP standInHash
                (Some (sampleBlock 256 (Some "0xdeadbeef")
                         VUndefined VUndefined)))
      = Return (Some (sampleRlp []))).
Proof.
  apply (no_optional_fields_single_attempt standInHash
           (sampleBlock 256 (Some "0xdeadbeef") VUndefined VUndefined)
           sampleBase (sampleRlp []));
    vm_compute; reflexivity.
Defined.

(** ** The logsBloom guard on absent and empty values *)

(** X18: logsBloom has no default value: a block without it skips the
    length check and is rejected by [toFieldBytes] (or an earlier
    mandatory field is), still before anything is hashed. *)
Lemma logsBloom_absent_rejected (keccak256 : string -> string) (b : Block) :
  logsBloom b = None ->
  exists e, bruteforceRLP keccak256 (Some b) = (Throw e, noEffects).
Proof.
  intros Hl. unfold bruteforceRLP. rewrite Hl. cbn [processLogsBloom].
  unfold baseFields, mandatoryValues. cbn [mapFieldBytes].
  repeat match goal with
         | |- context [bind (toFieldBytes ?v) _] =>
             destruct (toFieldBytes v) eqn:?; cbn [bind];
             try (eexists; reflexivity); try discriminate
         end.
Qed.

(** The empty string is falsy: the guard does not check it, and it is
    encoded as the empty byte string. *)
Lemma logsBloom_empty_unchecked :
  processLogsBloom (Some "") = Ok (VString "")
  /\ toFieldBytes (VString "") = Ok [].
Proof. split; reflexivity. Qed.

(** ** Concrete checks *)

Example toFieldBytes_timestamp :
  toFieldBytes (VBigInt 1700000000) = Ok [x65; x53; xf1; x00].
Proof. reflexivity. Qed.

Example toFieldBytes_odd_digits :
  toFieldBytes (VNumber 4095) = Ok [x0f; xff].
Proof. reflexivity. Qed.

Example toFieldBytes_hex_string :
  toFieldBytes (VString "0x00ff") = Ok [x00; xff].
Proof. reflexivity. Qed.

Example toFieldBytes_text : toFieldBytes (VString "cat") = Ok [x63; x61; x74].
Proof. reflexivity. Qed.

Example toNonceBytes_long :
  toNonceBytes (Some "0x0102030405060708090a")
  = Ok [x01; x02; x03; x04; x05; x06; x07; x08].
Proof. reflexivity. Qed.

(** The RLP test vectors of the Ethereum documentation. *)
Example toRlp_empty_list : toRlp [] = Ok "0xc0".
Proof. reflexivity. Qed.

Example toRlp_cat_dog :
  toRlp [[x63; x61; x74]; [x64; x6f; x67]] = Ok "0xc88363617483646f67".
Proof. reflexivity. Qed.

Example toRlp_small_and_empty : toRlp [[x0f]; []; [x04; x00]] = Ok "0xc50f80820400".
Proof. reflexivity. Qed.

Example rlpBytes_long_string :
  rlpBytes (List.repeat x61 56) = Ok (xb8 :: x38 :: List.repeat x61 56).
Proof. reflexivity. Qed.

(** With one optional field the two priority masks coincide, and mask 1 is
    hashed twice before mask 0. *)
Example search_order_one_field :
  tried (bruteforceRLP standInHash
           (Some (sampleBlock 256 (Some "0xdeadbeef") (VBigInt 7) VUndefined)))
  = [1; 1; 0].
Proof. vm_compute. reflexivity. Qed.

(** With two optional fields: base fee only, all fields, then the rest in
    increasing order. *)
Example search_order_two_fields :
  tried (bruteforceRLP standInHash
           (Some (sampleBlock 256 (Some "0xdeadbeef") (VBigInt 7) (hash32 "6"))))
  = [1; 3; 0; 2].
Proof. vm_compute. reflexivity. Qed.

(** * Further properties of the search *)

(** ** The search stops at the first candidate that matches or fails *)

Section SearchPrefix.

Variable keccak256 : string -> string.
Variable targetHash : option string.
Variable base : list bytes.
Variable available : list field.

Lemma tryMasks_prefix (priority : bool) : forall masks st,
  match tryMasks keccak256 targetHash base available priority masks st with
  | inr st' =>
      attempts st' = attempts st ++ unskipped available priority masks
      /\ List.Forall (nonMatching keccak256 targetHash base available)
           (unskipped available priority masks)
  | inl (Throw e, st') =>
      exists pre m post,
        unskipped available priority masks = pre ++ m :: post
        /\ List.Forall (nonMatching keccak256 targetHash base available) pre
        /\ candidate base available m = Err e
        /\ attempts st' = attempts st ++ pre
  | inl (Return (Some rlp), st') =>
      exists pre m post included,
        unskipped available priority masks = pre ++ m :: post
        /\ List.Forall (nonMatching keccak256 targetHash base available) pre
        /\ candidate base available m = Ok (rlp, included)
        /\ hashMatches targetHash (keccak256 rlp) = true
        /\ attempts st' = attempts st ++ pre ++ [m]
  | inl (Return None, _) => False
  end.
Proof.
  induction masks as [|m rest IH]; intros st.
  - cbn. rewrite List.app_nil_r. split; [reflexivity|constructor].
  - cbn [tryMasks unskipped List.filter].
    destruct (negb priority && includes (priorityMasks available) m) eqn:Es;
      cbn [negb]; fold (unskipped available priority rest).
    + apply IH.
    + destruct (candidate base available m) as [[rlp inc]|e] eqn:Ec.
      2:{ rewrite (tryMask_throw _ _ _ _ _ _ _ _ Ec).
          exists [], m, (unskipped available priority rest).
          rewrite List.app_nil_r. now repeat split. }
      destruct (hashMatches targetHash (keccak256 rlp)) eqn:Eh.
      { rewrite (tryMask_found _ _ _ _ _ _ _ _ _ Ec Eh).
        exists [], m, (unskipped available priority rest), inc.
        cbn [attempts List.app]. now repeat split. }
      rewrite (tryMask_next _ _ _ _ _ _ _ _ _ Ec Eh).
      assert (Hm : nonMatching keccak256 targetHash base available m)
        by now exists rlp, inc.
      specialize (IH {| attempts := attempts st ++ [m];
                        console := console st
                                   ++ attemptLines available priority m inc |}).
      destruct (tryMasks _ _ _ _ _ rest _) as [[[e|[rlp'|]] st']|st'];
        cbn [attempts] in IH.
      * destruct IH as (pre & m' & post & Hu & Hf & Hc & Ha).
        exists (m :: pre), m', post. rewrite Hu, Ha, <- List.app_assoc.
        repeat split; try assumption. now constructor.
      * destruct IH as (pre & m' & post & inc' & Hu & Hf & Hc & Hh & Ha).
        exists (m :: pre), m', post, inc'. rewrite Hu, Ha, <- List.app_assoc.
        repeat split; try assumption. now constructor.
      * exact IH.
      * destruct IH as [Ha Hf]. rewrite Ha, <- List.app_assoc.
        split; [reflexivity|now constructor].
Qed.

Lemma search_prefix :
  match search keccak256 targetHash base available with
  | (Throw e, st) =>
      exists pre m post,
        searchOrder available = pre ++ m :: post
        /\ List.Forall (nonMatching keccak256 targetHash base available) pre
        /\ candidate base available m = Err e
        /\ attempts st = pre
  | (Return (Some rlp), st) =>
      exists pre m post included,
        searchOrder available = pre ++ m :: post
        /\ List.Forall (nonMatching keccak256 targetHash base available) pre
        /\ candidate base available m = Ok (rlp, included)
        /\ hashMatches targetHash (keccak256 rlp) = true
        /\ attempts st = pre ++ [m]
  | (Return None, st) =>
      attempts st = searchOrder available
      /\ List.Forall (nonMatching keccak256 targetHash base available)
           (searchOrder available)
  end.
Proof.
  unfold search. cbv zeta.
  change (searchOrder available)
    with (priorityMasks available
          ++ unskipped available false (countTo (totalCombinations available))).
  remember (unskipped available false (countTo (totalCombinations available)))
    as others eqn:Eo.
  set (st0 := logged _ noEffects).
  pose proof (tryMasks_prefix true (priorityMasks available) st0) as H1.
  rewrite unskipped_priority in H1.
  destruct (tryMasks _ _ _ _ true _ st0) as [[[e|[rlp|]] st1]|st1];
    unfold st0 in H1; cbn [attempts logged noEffects List.app] in H1.
  - destruct H1 as (pre & m & post & Hu & Hf & Hc & Ha).
    exists pre, m, (post ++ others).
    rewrite Hu, <- List.app_assoc. now repeat split.
  - destruct H1 as (pre & m & post & inc & Hu & Hf & Hc & Hh & Ha).
    exists pre, m, (post ++ others), inc.
    rewrite Hu, <- List.app_assoc. now repeat split.
  - destruct H1.
  - destruct H1 as [Ha1 Hf1].
    pose proof (tryMasks_prefix false (countTo (totalCombinations available))
                  st1) as H2.
    rewrite <- Eo in H2.
    destruct (tryMasks _ _ _ _ false _ st1) as [[[e|[rlp|]] st2]|st2].
    + destruct H2 as (pre & m & post & Hu & Hf & Hc & Ha).
      exists (priorityMasks available ++ pre), m, post.
      rewrite Hu, Ha, Ha1, <- List.app_assoc.
      repeat split; try assumption. now apply List.Forall_app.
    + destruct H2 as (pre & m & post & inc & Hu & Hf & Hc & Hh & Ha).
      exists (priorityMasks available ++ pre), m, post, inc.
      rewrite Hu, Ha, Ha1, <- !List.app_assoc.
      repeat split; try assumption. now apply List.Forall_app.
    + destruct H2.
    + destruct H2 as [Ha2 Hf2]. cbn [logged attempts].
      rewrite Ha2, Ha1. split; [reflexivity|now apply List.Forall_app].
Qed.

End SearchPrefix.

(** ** The order of the attempts *)

Lemma app_cons_cases (pre pre' : list Z) (m m' : Z) (post post' : list Z) :
  pre ++ m :: post = pre' ++ m' :: post' ->
  (pre = pre' /\ m = m' /\ post = post') \/ In m pre' \/ In m' pre.
Proof.
  revert pre'. induction pre as [|a pre IH]; intros [|a' pre'] H;
    cbn [List.app] in H; injection H as Ha Hrest.
  - left. now repeat split.
  - right. left. left. now symmetry.
  - right. right. now left.
  - destruct (IH _ Hrest) as [(-> & -> & ->) | [Hin | Hin]].
    + left. now subst.
    + right. left. now right.
    + right. right. now right.
Qed.

Lemma distinct_prefix (l post : list Z) :
  distinct (l ++ post) = true -> distinct l = true.
Proof.
  induction l as [|x l IH]; [reflexivity|].
  cbn [List.app distinct]. rewrite !andb_true_iff, !negb_true_iff.
  intros [Hx Hd]. split; [|now apply IH].
  destruct (includes l x) eqn:E; [|reflexivity].
  apply includes_In in E.
  assert (Hin : In x (l ++ post)) by (apply List.in_or_app; now left).
  apply includes_In in Hin. congruence.
Qed.

Section SearchOrder.

Variable keccak256 : string -> string.
Variable targetHash : option string.
Variable base : list bytes.
Variable available : list field.

Lemma nonMatching_unique (m : Z) (rlp : string) (included : list string) :
  nonMatching keccak256 targetHash base available m ->
  candidate base available m = Ok (rlp, included) ->
  hashMatches targetHash (keccak256 rlp) = false.
Proof.
  intros (rlp' & inc' & Hc & Hh) Hc'. rewrite Hc in Hc'.
  injection Hc' as <- <-. exact Hh.
Qed.

Lemma nonMatching_encodes (m : Z) (e : error) :
  nonMatching keccak256 targetHash base available m ->
  candidate base available m <> Err e.
Proof. intros (rlp & inc & Hc & _). congruence. Qed.

(** The first candidate of the search order that matches is the one
    returned, once every candidate before it has been hashed. *)
Lemma search_first_match (pre post : list Z) (m : Z) (rlp : string)
    (included : list string) :
  searchOrder available = pre ++ m :: post ->
  List.Forall (nonMatching keccak256 targetHash base available) pre ->
  candidate base available m = Ok (rlp, included) ->
  hashMatches targetHash (keccak256 rlp) = true ->
  fst (search keccak256 targetHash base available) = Return (Some rlp)
  /\ attempts (snd (search keccak256 targetHash base available)) = pre ++ [m].
Proof.
  intros Ho Hpre Hc Hh.
  pose proof (search_prefix keccak256 targetHash base available) as S.
  rewrite List.Forall_forall in Hpre.
  destruct (search _ _ _ _) as [[e|[rlp'|]] st]; cbn [fst snd].
  - destruct S as (pre' & m' & post' & Ho' & Hf & Hc' & _).
    rewrite List.Forall_forall in Hf. rewrite Ho in Ho'.
    destruct (app_cons_cases _ _ _ _ _ _ Ho') as [(_ & <- & _) | [Hin | Hin]].
    + congruence.
    + pose proof (nonMatching_unique _ _ _ (Hf _ Hin) Hc). congruence.
    + now destruct (nonMatching_encodes _ e (Hpre _ Hin)).
  - destruct S as (pre' & m' & post' & inc' & Ho' & Hf & Hc' & Hh' & Ha).
    rewrite List.Forall_forall in Hf. rewrite Ho in Ho'.
    destruct (app_cons_cases _ _ _ _ _ _ Ho') as [(<- & <- & _) | [Hin | Hin]].
    + split; [congruence|exact Ha].
    + pose proof (nonMatching_unique _ _ _ (Hf _ Hin) Hc). congruence.
    + pose proof (nonMatching_unique _ _ _ (Hpre _ Hin) Hc'). congruence.
  - destruct S as [_ Hf]. rewrite List.Forall_forall in Hf.
    assert (Hin : In m (searchOrder available)).
    { rewrite Ho. apply List.in_or_app. right. now left. }
    pose proof (nonMatching_unique _ _ _ (Hf _ Hin) Hc). congruence.
Qed.

(** The first candidate of the search order that cannot be encoded ends
    the search with its error, unless a candidate before it matched. *)
Lemma search_first_failure (pre post : list Z) (m : Z) (e : error) :
  searchOrder available = pre ++ m :: post ->
  List.Forall (nonMatching keccak256 targetHash base available) pre ->
  candidate base available m = Err e ->
  fst (search keccak256 targetHash base available) = Throw e
  /\ attempts (snd (search keccak256 targetHash base available)) = pre.
Proof.
  intros Ho Hpre Hc.
  pose proof (search_prefix keccak256 targetHash base available) as S.
  rewrite List.Forall_forall in Hpre.
  destruct (search _ _ _ _) as [[e'|[rlp'|]] st]; cbn [fst snd].
  - destruct S as (pre' & m' & post' & Ho' & Hf & Hc' & Ha).
    rewrite List.Forall_forall in Hf. rewrite Ho in Ho'.
    destruct (app_cons_cases _ _ _ _ _ _ Ho') as [(<- & <- & _) | [Hin | Hin]].
    + split; [congruence|exact Ha].
    + now destruct (nonMatching_encodes _ e (Hf _ Hin)).
    + now destruct (nonMatching_encodes _ e' (Hpre _ Hin)).
  - destruct S as (pre' & m' & post' & inc' & Ho' & Hf & Hc' & Hh' & Ha).
    rewrite List.Forall_forall in Hf. rewrite Ho in Ho'.
    destruct (app_cons_cases _ _ _ _ _ _ Ho') as [(_ & <- & _) | [Hin | Hin]].
    + congruence.
    + now destruct (nonMatching_encodes _ e (Hf _ Hin)).
    + pose proof (nonMatching_unique _ _ _ (Hpre _ Hin) Hc'). congruence.
  - destruct S as [_ Hf]. rewrite List.Forall_forall in Hf.
    assert (Hin : In m (searchOrder available)).
    { rewrite Ho. apply List.in_or_app. right. now left. }
    now destruct (nonMatching_encodes _ e (Hf _ Hin)).
Qed.

(** The target is read through [toLowerCase] only. *)
Lemma tryMasks_target (targetHash' : option string) (priority : bool) :
  (forall h, hashMatches targetHash h = hashMatches targetHash' h) ->
  forall masks st,
  tryMasks keccak256 targetHash base available priority masks st
  = tryMasks keccak256 targetHash' base available priority masks st.
Proof.
  intros H. induction masks as [|m rest IH]; intros st; [reflexivity|].
  cbn [tryMasks]. destruct (negb priority && includes _ m); [apply IH|].
  unfold tryMask. destruct (candidate base available m) as [[rlp inc]|e];
    [|reflexivity].
  cbv zeta. rewrite <- H.
  destruct (hashMatches targetHash (keccak256 rlp)); [reflexivity|apply IH].
Qed.

Lemma search_target (targetHash' : option string) :
  (forall h, hashMatches targetHash h = hashMatches targetHash' h) ->
  search keccak256 targetHash base available
  = search keccak256 targetHash' base available.
Proof.
  intros H. unfold search. cbv zeta.
  rewrite (tryMasks_target targetHash' true H).
  destruct (tryMasks _ targetHash' _ _ true _ _) as [r|st1]; [reflexivity|].
  now rewrite (tryMasks_target targetHash' false H).
Qed.

End SearchOrder.

(** ** The attempts of [bruteforceRLP] *)

(** The search order of a block: every mask once, unless baseFeePerGas is
    the only available field, where both priority masks are 1. *)
Lemma searchOrder_block (b : Block) :
  (List.map fst (availableOptionalFields b) = ["baseFeePerGas"]
   /\ searchOrder (availableOptionalFields b) = [1; 1; 0])
  \/ (List.map fst (availableOptionalFields b) <> ["baseFeePerGas"]
      /\ distinct (searchOrder (availableOptionalFields b)) = true
      /\ zlength (searchOrder (availableOptionalFields b))
         = totalCombinations (availableOptionalFields b)).
Proof.
  unfold availableOptionalFields, optionalFields. cbn [List.filter snd].
  destruct (isDefined (baseFeePerGas b)), (isDefined (withdrawalsRoot b)),
    (isDefined (blobGasUsed b)), (isDefined (excessBlobGas b)),
    (isDefined (parentBeaconBlockRoot b)), (isDefined (requestsHash b));
    first [ left; split; reflexivity
          | right; split; [discriminate|split; vm_compute; reflexivity] ].
Qed.

Lemma totalCombinations_block (b : Block) :
  1 <= totalCombinations (availableOptionalFields b) <= 64.
Proof.
  pose proof (available_length b) as Hk.
  unfold totalCombinations, zlength. split.
  - pose proof (Z.pow_pos_nonneg 2
                  (Z.of_nat (List.length (availableOptionalFields b)))). lia.
  - change 64 with (2 ^ 6). apply Z.pow_le_mono_r; lia.
Qed.

Lemma searchOrder_length (b : Block) :
  (List.length (searchOrder (availableOptionalFields b)) <= 64)%nat.
Proof.
  destruct (searchOrder_block b) as [[_ ->] | (_ & _ & Hl)].
  - cbn. lia.
  - pose proof (totalCombinations_block b). unfold zlength in Hl. lia.
Qed.

Lemma bruteforceRLP_prefix (keccak256 : string -> string) (b : Block)
    (base : list bytes) :
  headerInputs b = Ok base ->
  exists post,
    searchOrder (availableOptionalFields b)
    = tried (bruteforceRLP keccak256 (Some b)) ++ post.
Proof.
  intros Hb. rewrite (bruteforceRLP_search _ _ _ Hb). unfold tried.
  pose proof (search_prefix keccak256 (hash b) base
                (availableOptionalFields b)) as S.
  destruct (search _ _ _ _) as [[e|[rlp|]] st]; cbn [snd].
  - destruct S as (pre & m & post & Ho & _ & _ & ->). now exists (m :: post).
  - destruct S as (pre & m & post & _ & Ho & _ & _ & _ & ->).
    exists post. now rewrite <- List.app_assoc.
  - destruct S as [-> _]. exists []. now rewrite List.app_nil_r.
Qed.

Lemma bruteforceRLP_returns (keccak256 : string -> string) (b : Block)
    (r : option string) :
  result (bruteforceRLP keccak256 (Some b)) = Return r ->
  exists base, headerInputs b = Ok base.
Proof.
  unfold bruteforceRLP, headerInputs, result.
  destruct (processLogsBloom (logsBloom b)) as [bloom|e]; cbn [bind fst];
    [|discriminate].
  destruct (baseFields b bloom) as [base|e]; cbn [fst]; [|discriminate].
  intros _. now exists base.
Qed.

(** X2: the candidates are hashed in one fixed order, the priority masks
    followed by the other masks in increasing order: what a call has
    hashed is always an initial part of that order, all of it when the
    call returns null, and never more than 64 candidates. *)
Theorem attempts_follow_search_order (keccak256 : string -> string)
    (b : Block) (base : list bytes) :
  headerInputs b = Ok base ->
  (exists post,
     searchOrder (availableOptionalFields b)
     = tried (bruteforceRLP keccak256 (Some b)) ++ post)
  /\ (result (bruteforceRLP keccak256 (Some b)) = Return None ->
      tried (bruteforceRLP keccak256 (Some b))
      = searchOrder (availableOptionalFields b))
  /\ (List.length (tried (bruteforceRLP keccak256 (Some b))) <= 64)%nat.
Proof.
  intros Hb.
  destruct (bruteforceRLP_prefix keccak256 b base Hb) as [post Hpost].
  split; [now exists post|]. split.
  - rewrite (bruteforceRLP_search _ _ _ Hb). unfold result, tried.
    pose proof (search_prefix keccak256 (hash b) base
                  (availableOptionalFields b)) as S.
    destruct (search _ _ _ _) as [[e|[rlp|]] st]; cbn [fst snd];
      try discriminate.
    intros _. apply S.
  - pose proof (searchOrder_length b) as Hl.
    rewrite Hpost, List.length_app in Hl. lia.
Qed.

Lemma attempts_follow_search_order_witness :
  tried (bruteforceRLP standInHash
           (Some (sampleBlock 256 (Some "0x00") (VBigInt 7) (hash32 "6"))))
  = [1; 3; 0; 2].
Proof.
  refine (eq_trans
    (proj1 (proj2
      (attempts_follow_search_order standInHash
         (sampleBlock 256 (Some "0x00") (VBigInt 7) (hash32 "6"))
         sampleBase _)) _) _);
    vm_compute; reflexivity.
Defined.

(** X3: no candidate is encoded and hashed twice, with one exception:
    when baseFeePerGas is the only available optional field the two
    priority masks are both 1, and a call that returns null has hashed
    the base-fee candidate twice, before the mandatory-only one. *)
Theorem candidates_hashed_once (keccak256 : string -> string) (b : Block)
    (base : list bytes) :
  headerInputs b = Ok base ->
  (List.map fst (availableOptionalFields b) <> ["baseFeePerGas"] ->
   distinct (tried (bruteforceRLP keccak256 (Some b))) = true)
  /\ (List.map fst (availableOptionalFields b) = ["baseFeePerGas"] ->
      result (bruteforceRLP keccak256 (Some b)) = Return None ->
      tried (bruteforceRLP keccak256 (Some b)) = [1; 1; 0]).
Proof.
  intros Hb. split.
  - intros Hn. destruct (bruteforceRLP_prefix keccak256 b base Hb) as [post Hp].
    destruct (searchOrder_block b) as [[Hf _] | (_ & Hd & _)]; [contradiction|].
    rewrite Hp in Hd. now apply distinct_prefix in Hd.
  - intros Hf Hr.
    destruct (searchOrder_block b) as [[_ Ho] | (Hn & _)]; [|contradiction].
    rewrite <- Ho. rewrite (bruteforceRLP_search _ _ _ Hb) in *.
    unfold result, tried in *.
    pose proof (search_prefix keccak256 (hash b) base
                  (availableOptionalFields b)) as S.
    destruct (search _ _ _ _) as [[e|[rlp|]] st]; cbn [fst snd] in *;
      try discriminate.
    apply S.
Qed.

Lemma candidates_hashed_once_witness :
  distinct (tried (bruteforceRLP standInHash
              (Some (sampleBlock 256 (Some "0x00") (VBigInt 7) (hash32 "6")))))
  = true
  /\ tried (bruteforceRLP standInHash
              (Some (sampleBlock 256 (Some "0x00") (VBigInt 7) VUndefined)))
     = [1; 1; 0].
Proof.
  split.
  - apply (proj1 (candidates_hashed_once standInHash
                    (sampleBlock 256 (Some "0x00") (VBigInt 7) (hash32 "6"))
                    sampleBase ltac:(vm_compute; reflexivity))).
    vm_compute. discriminate.
  - apply (proj2 (candidates_hashed_once standInHash
                    (sampleBlock 256 (Some "0x00") (VBigInt 7) VUndefined)
                    sampleBase ltac:(vm_compute; reflexivity)));
      vm_compute; reflexivity.
Defined.

(** X4: the value returned is the encoding of the first candidate, in
    search order, whose hash is the target: every candidate hashed before
    it was encoded and did not match, and it is the last one hashed. *)
Theorem first_match_wins (keccak256 : string -> string) (b : Block)
    (base : list bytes) (rlp : string) :
  headerInputs b = Ok base ->
  result (bruteforceRLP keccak256 (Some b)) = Return (Some rlp) ->
  exists pre m post included,
    searchOrder (availableOptionalFields b) = pre ++ m :: post
    /\ tried (bruteforceRLP keccak256 (Some b)) = pre ++ [m]
    /\ candidate base (availableOptionalFields b) m = Ok (rlp, included)
    /\ sameHash (keccak256 rlp) (hash b)
    /\ List.Forall
         (nonMatching keccak256 (hash b) base (availableOptionalFields b)) pre.
Proof.
  intros Hb. rewrite (bruteforceRLP_search _ _ _ Hb). unfold result, tried.
  pose proof (search_prefix keccak256 (hash b) base
                (availableOptionalFields b)) as S.
  destruct (search _ _ _ _) as [[e|[rlp'|]] st]; cbn [fst snd];
    try discriminate.
  intros [= ->].
  destruct S as (pre & m & post & inc & Ho & Hf & Hc & Hh & Ha).
  exists pre, m, post, inc. repeat split; try assumption.
  now apply hashMatches_sameHash.
Qed.

Lemma first_match_wins_witness :
  exists pre m post included,
    searchOrder (availableOptionalFields
                   (sampleBlock 256 (Some (standInHash (sampleRlp [])))
                      (VBigInt 7) VUndefined))
    = pre ++ m :: post
    /\ tried (bruteforceRLP standInHash
                (Some (sampleBlock 256 (Some (standInHash (sampleRlp [])))
                         (VBigInt 7) VUndefined)))
       = pre ++ [m]
    /\ candidate sampleBase
         (availableOptionalFields
            (sampleBlock 256 (Some (standInHash (sampleRlp [])))
               (VBigInt 7) VUndefined)) m
       = Ok (sampleRlp [], included)
    /\ sameHash (standInHash (sampleRlp [])) (Some (standInHash (sampleRlp [])))
    /\ List.Forall
         (nonMatching standInHash (Some (standInHash (sampleRlp [])))
            sampleBase
            (availableOptionalFields
               (sampleBlock 256 (Some (standInHash (sampleRlp [])))
                  (VBigInt 7) VUndefined))) pre.
Proof.
  apply (first_match_wins standInHash
           (sampleBlock 256 (Some (standInHash (sampleRlp [])))
              (VBigInt 7) VUndefined) sampleBase (sampleRlp []));
    vm_compute; reflexivity.
Defined.

(** X5: conversely, the first candidate of the search order whose hash
    is the target is the one returned, provided the candidates before it
    can be encoded; exactly the candidates up to it are hashed.  Neither
    the candidates after it nor collisions among them matter. *)
Theorem first_matching_candidate_returned (keccak256 : string -> string)
    (b : Block) (base : list bytes) (pre post : list Z) (m : Z)
    (rlp : string) (included : list string) :
  headerInputs b = Ok base ->
  searchOrder (availableOptionalFields b) = pre ++ m :: post ->
  List.Forall
    (nonMatching keccak256 (hash b) base (availableOptionalFields b)) pre ->
  candidate base (availableOptionalFields b) m = Ok (rlp, included) ->
  sameHash (keccak256 rlp) (hash b) ->
  result (bruteforceRLP keccak256 (Some b)) = Return (Some rlp)
  /\ tried (bruteforceRLP keccak256 (Some b)) = pre ++ [m].
Proof.
  intros Hb Ho Hpre Hc Hh. rewrite (bruteforceRLP_search _ _ _ Hb).
  apply hashMatches_sameHash in Hh.
  exact (search_first_match keccak256 (hash b) base _ pre post m rlp included
           Ho Hpre Hc Hh).
Qed.

(** X6: the first candidate of the search order that cannot be encoded
    ends the call with the error of [toFieldBytes] or [toRlp], provided
    no candidate before it matched; the candidates after it are never
    tried. *)
Theorem first_unencodable_candidate_raises (keccak256 : string -> string)
    (b : Block) (base : list bytes) (pre post : list Z) (m : Z) (e : error) :
  headerInputs b = Ok base ->
  searchOrder (availableOptionalFields b) = pre ++ m :: post ->
  List.Forall
    (nonMatching keccak256 (hash b) base (availableOptionalFields b)) pre ->
  candidate base (availableOptionalFields b) m = Err e ->
  result (bruteforceRLP keccak256 (Some b)) = Throw e
  /\ tried (bruteforceRLP keccak256 (Some b)) = pre.
Proof.
  intros Hb Ho Hpre Hc. rewrite (bruteforceRLP_search _ _ _ Hb).
  exact (search_first_failure keccak256 (hash b) base _ pre post m e
           Ho Hpre Hc).
Qed.

Lemma first_matching_candidate_returned_witness :
  result (bruteforceRLP standInHash
            (Some (sampleBlock 256 (Some (standInHash (sampleRlp [])))
                     (VBigInt 7) (hash32 "6"))))
  = Return (Some (sampleRlp []))
  /\ tried (bruteforceRLP standInHash
              (Some (sampleBlock 256 (Some (standInHash (sampleRlp [])))
                       (VBigInt 7) (hash32 "6"))))
     = [1; 3] ++ [0].
Proof.
  apply (first_matching_candidate_returned standInHash
           (sampleBlock 256 (Some (standInHash (sampleRlp [])))
              (VBigInt 7) (hash32 "6"))
           sampleBase [1; 3] [2] 0 (sampleRlp []) []).
  - vm_compute. reflexivity.
  - vm_compute. reflexivity.
  - repeat constructor.
    + exists (sampleRlp [[x07]]), ["baseFeePerGas"].
      split; vm_compute; reflexivity.
    + match eval vm_compute in
        (candidate sampleBase
           (availableOptionalFields
              (sampleBlock 256 None (VBigInt 7) (hash32 "6"))) 3) with
      | Ok (?r, ?i) => exists r, i
      end.
      split; vm_compute; reflexivity.
  - vm_compute. reflexivity.
  - exists (standInHash (sampleRlp [])). split; reflexivity.
Defined.

Lemma first_unencodable_candidate_raises_witness :
  result (bruteforceRLP standInHash
            (Some (sampleBlock 256 (Some (standInHash (sampleRlp [])))
                     VNull VUndefined)))
  = Throw UndefinedValue
  /\ tried (bruteforceRLP standInHash
              (Some (sampleBlock 256 (Some (standInHash (sampleRlp [])))
                       VNull VUndefined)))
     = [].
Proof.
  apply (first_unencodable_candidate_raises standInHash
           (sampleBlock 256 (Some (standInHash (sampleRlp [])))
              VNull VUndefined)
           sampleBase [] [1; 0] 1 UndefinedValue).
  - vm_compute. reflexivity.
  - vm_compute. reflexivity.
  - constructor.
  - vm_compute. reflexivity.
Defined.

(** ** The target hash *)

(** X7: a block without a hash (a pending block) never yields an
    encoding: the comparison with an undefined target is false for every
    candidate. *)
Theorem pending_block_never_matches (keccak256 : string -> string)
    (b : Block) (rlp : string) :
  hash b = None ->
  result (bruteforceRLP keccak256 (Some b)) <> Return (Some rlp).
Proof.
  intros Hh Hr.
  destruct (bruteforceRLP_returns _ _ _ Hr) as [base Hb].
  pose proof (bruteforceRLP_cases keccak256 b base Hb) as C.
  unfold result in Hr.
  destruct (bruteforceRLP keccak256 (Some b)) as [[e|[rlp'|]] st];
    cbn [fst] in Hr; try discriminate.
  destruct C as (p & inc & pre & lines & priority & _ & _ & Hs & _).
  destruct Hs as (t & Ht & _). congruence.
Qed.

Lemma pending_block_never_matches_witness :
  result (bruteforceRLP standInHash
            (Some (sampleBlock 256 None (VBigInt 7) VUndefined)))
  <> Return (Some (sampleRlp [])).
Proof.
  apply (pending_block_never_matches standInHash
           (sampleBlock 256 None (VBigInt 7) VUndefined) (sampleRlp [])).
  reflexivity.
Defined.

Lemma headerInputs_withHash (b : Block) (h : option string) :
  headerInputs (withHash b h) = headerInputs b.
Proof. reflexivity. Qed.



(** ** The logsBloom *)

Lemma removeWhitespace_idempotent (s : string) :
  removeWhitespace (removeWhitespace s) = removeWhitespace s.
Proof.
  induction s as [|c rest IH]; [reflexivity|]. cbn [removeWhitespace].
  destruct (isWhitespace c) eqn:E; [exact IH|].
  cbn [removeWhitespace]. now rewrite E, IH.
Qed.

(** X9: white space inside the logsBloom is dropped before the length
    check and before encoding: a bloom and the same bloom without its
    white space give the same run, as long as something is left of it. *)
Theorem logsBloom_whitespace_ignored (keccak256 : string -> string)
    (b : Block) (s : string) :
  removeWhitespace s <> "" ->
  bruteforceRLP keccak256 (Some (withLogsBloom b (Some s)))
  = bruteforceRLP keccak256
      (Some (withLogsBloom b (Some (removeWhitespace s)))).
Proof.
  intros Hs.
  assert (Hne : s <> "") by (intros ->; now apply Hs).
  apply String.eqb_neq in Hne, Hs.
  unfold bruteforceRLP. cbn [logsBloom withLogsBloom].
  unfold processLogsBloom. rewrite Hne, Hs. cbv zeta.
  rewrite removeWhitespace_idempotent.
  destruct (hexToBytes (removeWhitespace s)) as [bloomBytes|e]; cbn [bind];
    [|reflexivity].
  destruct (List.length bloomBytes =? 256)%nat; reflexivity.
Qed.

Lemma logsBloom_whitespace_ignored_witness :
  bruteforceRLP standInHash
    (Some (withLogsBloom (sampleBlock 256 None (VBigInt 7) VUndefined)
             (Some "0x 00")))
  = bruteforceRLP standInHash
      (Some (withLogsBloom (sampleBlock 256 None (VBigInt 7) VUndefined)
               (Some (removeWhitespace "0x 00")))).
Proof.
  apply (logsBloom_whitespace_ignored standInHash
           (sampleBlock 256 None (VBigInt 7) VUndefined) "0x 00").
  vm_compute. discriminate.
Defined.

(** ** [bytesToHex] and [hexToBytes] *)

Lemma byte_of_digits (b : byte) :
  charCodeToBase16 (hexDigit (byteVal b / 16)) = Some (Z.to_N (byteVal b / 16))
  /\ charCodeToBase16 (hexDigit (byteVal b mod 16))
     = Some (Z.to_N (byteVal b mod 16))
  /\ byteOfN (Z.to_N (byteVal b / 16) * 16 + Z.to_N (byteVal b mod 16)) = b.
Proof. destruct b; vm_compute; repeat split. Qed.

Lemma hexOfBytes_length (bs : bytes) :
  String.length (hexOfBytes bs) = (2 * List.length bs)%nat.
Proof.
  induction bs as [|b rest IH]; [reflexivity|].
  cbn [hexOfBytes String.length List.length]. rewrite IH. lia.
Qed.

Lemma hexPairs_hexOfBytes (bs : bytes) : hexPairs (hexOfBytes bs) = Ok bs.
Proof.
  induction bs as [|b rest IH]; [reflexivity|].
  cbn [hexOfBytes hexPairs].
  destruct (byte_of_digits b) as (-> & -> & Hb).
  rewrite IH. cbn [bind]. now rewrite Hb.
Qed.

Lemma hexToBytes_bytesToHex (bs : bytes) : hexToBytes (bytesToHex bs) = Ok bs.
Proof.
  unfold hexToBytes, bytesToHex. cbn [append slice2]. unfold padEven.
  rewrite hexOfBytes_length.
  assert (E : Nat.even (2 * List.length bs) = true).
  { apply Nat.even_spec. now exists (List.length bs). }
  rewrite E. apply hexPairs_hexOfBytes.
Qed.

Lemma startsWith0x_prefixed (t : string) :
  startsWith0x (String "0" (String "x" t)) = true.
Proof. destruct t; reflexivity. Qed.

Lemma hexDigit_zero (d : Z) : 0 <= d < 16 -> hexDigit d = "0"%char -> d = 0.
Proof.
  intros H.
  assert (C : d = 0 \/ d = 1 \/ d = 2 \/ d = 3 \/ d = 4 \/ d = 5 \/ d = 6
              \/ d = 7 \/ d = 8 \/ d = 9 \/ d = 10 \/ d = 11 \/ d = 12
              \/ d = 13 \/ d = 14 \/ d = 15) by lia.
  repeat (destruct C as [-> | C]; [first [reflexivity | discriminate]|]).
  subst. discriminate.
Qed.

(** X10: a hash, address or root given as the hex literal of its bytes
    is encoded as exactly those bytes, leading zero bytes included; the
    one exception is the literal of the single byte 00, which is read as
    the number zero. *)
Theorem toFieldBytes_hex_literal_raw (bs : bytes) :
  bs <> [x00] ->
  toFieldBytes (VString (bytesToHex bs)) = Ok bs
  /\ toFieldBytes (VString (bytesToHex [x00])) = Ok [].
Proof.
  intros Hne. split; [|reflexivity].
  destruct bs as [|b rest]; [reflexivity|].
  unfold toFieldBytes.
  assert (E : ((bytesToHex (b :: rest) =? "")
               || (bytesToHex (b :: rest) =? "0x")
               || (bytesToHex (b :: rest) =? "0x0")
               || (bytesToHex (b :: rest) =? "0x00"))%string = false).
  { repeat (apply orb_false_iff; split); apply String.eqb_neq;
      unfold bytesToHex; cbn [hexOfBytes append]; try discriminate.
    intros H. injection H as H1 H2 H3.
    destruct rest as [|b' rest']; [|discriminate].
    apply Hne. f_equal. apply byteVal_zero.
    pose proof (byteVal_range b) as Hr.
    pose proof (Z.div_mod (byteVal b) 16 ltac:(lia)) as Hdm.
    pose proof (Z.mod_pos_bound (byteVal b) 16 ltac:(lia)) as Hm.
    assert (Hq : 0 <= byteVal b / 16 < 16).
    { split; [apply Z.div_pos; lia|apply Z.div_lt_upper_bound; lia]. }
    assert (H1' : byteVal b / 16 = 0) by (apply hexDigit_zero; congruence).
    assert (H2' : byteVal b mod 16 = 0) by (apply hexDigit_zero; congruence).
    lia. }
  rewrite E.
  assert (Hp : startsWith0x (bytesToHex (b :: rest)) = true) by reflexivity.
  rewrite Hp. apply hexToBytes_bytesToHex.
Qed.

Lemma toFieldBytes_hex_literal_raw_witness :
  toFieldBytes (VString (bytesToHex [x00; x00; x2a])) = Ok [x00; x00; x2a]
  /\ toFieldBytes (VString (bytesToHex [x00])) = Ok [].
Proof.
  apply (toFieldBytes_hex_literal_raw [x00; x00; x2a]). discriminate.
Defined.

(** X11: a quantity given as the hex string a JSON-RPC node sends
    ("0x" and the digits without leading zero) is encoded to the same
    bytes as the bigint of that quantity. *)
Theorem toFieldBytes_quantity_string (n : Z) :
  0 <= n ->
  toFieldBytes (VString ("0x" ++ toString16 n)) = toFieldBytes (VBigInt n).
Proof.
  intros Hn. destruct (Z.eq_dec n 0) as [-> | Hnz]; [reflexivity|].
  destruct (toString16_positive n ltac:(lia)) as (_ & _ & d & tl & Hd & Hs).
  unfold toFieldBytes.
  destruct (n =? 0) eqn:E0; [apply Z.eqb_eq in E0; lia|].
  destruct (n <? 0) eqn:E1; [apply Z.ltb_lt in E1; lia|].
  cbv zeta.
  assert (E : (("0x" ++ toString16 n =? "")
               || ("0x" ++ toString16 n =? "0x")
               || ("0x" ++ toString16 n =? "0x0")
               || ("0x" ++ toString16 n =? "0x00"))%string = false).
  { rewrite Hs.
    assert (C : d = 1 \/ d = 2 \/ d = 3 \/ d = 4 \/ d = 5 \/ d = 6 \/ d = 7
                \/ d = 8 \/ d = 9 \/ d = 10 \/ d = 11 \/ d = 12 \/ d = 13
                \/ d = 14 \/ d = 15) by lia.
    repeat (destruct C as [-> | C]; [reflexivity|]). subst; reflexivity. }
  rewrite E.
  cbn [append]. rewrite (startsWith0x_prefixed (toString16 n)).
  unfold hexToBytes. cbn [slice2].
  destruct (padded_even (toString16 n)) as [Hpad _]. cbv zeta in Hpad.
  cbn [append] in Hpad. rewrite Hpad.
  unfold padEven. now rewrite even_mod2.
Qed.

Lemma toFieldBytes_quantity_string_witness :
  toFieldBytes (VString ("0x" ++ toString16 1700000000))
  = toFieldBytes (VBigInt 1700000000).
Proof. apply (toFieldBytes_quantity_string 1700000000). lia. Defined.

(** ** [toNonceBytes] keeps the value of a short nonce *)

Lemma beValue_zeros (n : nat) (bs : bytes) :
  beValue (List.repeat x00 n ++ bs) = beValue bs.
Proof.
  induction n as [|n IH]; [reflexivity|].
  cbn [List.repeat List.app]. rewrite beValue_cons, IH.
  change (byteVal x00) with 0. lia.
Qed.

(** X12: a nonce of at most 8 bytes keeps its numeric value: the 8 bytes
    returned denote the same big-endian integer as the bytes given. *)
Theorem toNonceBytes_keeps_value (s : string) (bs : bytes) :
  hexToBytes s = Ok bs ->
  (List.length bs <= 8)%nat ->
  exists r,
    toNonceBytes (Some s) = Ok r
    /\ List.length r = 8%nat
    /\ beValue r = beValue bs.
Proof.
  intros H Hl. unfold toNonceBytes.
  destruct ((s =? "") || (s =? "0x0000000000000000"))%string eqn:E.
  - exists zeroNonce. split; [reflexivity|]. split; [reflexivity|].
    apply orb_true_iff in E.
    destruct E as [E | E]; apply String.eqb_eq in E; subst s;
      vm_compute in H; injection H as <-; reflexivity.
  - rewrite H. cbn [bind].
    destruct (List.length bs =? 8)%nat eqn:E8.
    + apply Nat.eqb_eq in E8. now exists bs.
    + apply Nat.eqb_neq in E8.
      assert (Elt : (List.length bs <? 8)%nat = true) by (apply Nat.ltb_lt; lia).
      rewrite Elt. eexists. split; [reflexivity|]. split.
      * rewrite List.length_app, List.repeat_length. lia.
      * apply beValue_zeros.
Qed.

Lemma toNonceBytes_keeps_value_witness :
  exists r,
    toNonceBytes (Some "0x01020304") = Ok r
    /\ List.length r = 8%nat
    /\ beValue r = beValue [x01; x02; x03; x04].
Proof.
  apply (toNonceBytes_keeps_value "0x01020304" [x01; x02; x03; x04]).
  - reflexivity.
  - cbn. lia.
Defined.

(** ** The value returned to [executeMint] *)

Lemma Ok_inj {A : Type} (a b : A) : Ok a = Ok b -> a = b.
Proof. now intros [=]. Qed.

Lemma getSizeOfLength_range (length size : Z) :
  getSizeOfLength length = Ok size -> 1 <= size <= 4.
Proof.
  unfold getSizeOfLength.
  destruct (length <? 2 ^ 8); [intros H; apply Ok_inj in H; lia|].
  destruct (length <? 2 ^ 16); [intros H; apply Ok_inj in H; lia|].
  destruct (length <? 2 ^ 24); [intros H; apply Ok_inj in H; lia|].
  destruct (length <? 2 ^ 32); [intros H; apply Ok_inj in H; lia|discriminate].
Qed.

Lemma toRlp_shape (items : list bytes) (rlp : string) :
  toRlp items = Ok rlp ->
  exists first body, rlp = bytesToHex (first :: body) /\ 192 <= byteVal first.
Proof.
  unfold toRlp. destruct (rlpItems items) as [body|e]; cbn [bind];
    [|discriminate].
  assert (H0 : 0 <= zlength body) by (unfold zlength; lia).
  destruct (getSizeOfLength (zlength body)) as [size|e] eqn:Es; cbn [bind];
    [|discriminate].
  apply getSizeOfLength_range in Es.
  destruct (zlength body <=? 55) eqn:E; intros H; apply Ok_inj in H;
    subst rlp.
  - apply Z.leb_le in E.
    exists (byteOfN (Z.to_N (192 + zlength body))), body.
    split; [reflexivity|]. rewrite byteVal_byteOfN by lia. lia.
  - exists (byteOfN (Z.to_N (192 + 55 + size))),
      (pushUint (Z.to_nat size) (zlength body) ++ body).
    split; [reflexivity|]. rewrite byteVal_byteOfN by lia. lia.
Qed.

Lemma rlpLength_bytesToHex (bs : bytes) : rlpLength (bytesToHex bs) = zlength bs.
Proof.
  unfold rlpLength, bytesToHex, zlength. cbn [append String.length].
  rewrite hexOfBytes_length.
  replace (Z.of_nat (S (S (2 * List.length bs))) - 2)
    with (Z.of_nat (List.length bs) * 2) by lia.
  apply Z.div_mul. lia.
Qed.

Lemma patternCandidate_toRlp (base : list bytes) (available : list field)
    (p : pattern) (rlp : string) (included : list string) :
  patternCandidate base available p = Ok (rlp, included) ->
  included = List.map fst (selectFields p available)
  /\ exists items, toRlp items = Ok rlp.
Proof.
  unfold patternCandidate. cbv zeta.
  destruct (mapFieldBytes _) as [bs|e]; cbn [bind]; [|discriminate].
  destruct (toRlp (base ++ bs)) as [r|e] eqn:E; cbn [bind]; [|discriminate].
  intros [= <- <-]. split; [reflexivity|]. now exists (base ++ bs).
Qed.

(** X13: what [bruteforceRLP] returns on success is the hex string of a
    non-empty byte string that starts with an RLP list prefix (a byte of
    at least c0); [hexToBytes] reads those bytes back, the length printed
    is their number, and the string is truthy, so that the guard
    [if (!rlpBytes)] of [executeMint] raises exactly when the search
    returned null. *)
Theorem returned_encoding_wellformed (keccak256 : string -> string)
    (b : Block) (rlp : string) :
  result (bruteforceRLP keccak256 (Some b)) = Return (Some rlp) ->
  (exists first body,
     rlp = bytesToHex (first :: body)
     /\ hexToBytes rlp = Ok (first :: body)
     /\ 192 <= byteVal first
     /\ rlpLength rlp = zlength (first :: body))
  /\ isFalsy (Some rlp) = false
  /\ isFalsy None = true.
Proof.
  intros Hr.
  destruct (bruteforceRLP_returns _ _ _ Hr) as [base Hb].
  pose proof (bruteforceRLP_cases keccak256 b base Hb) as C.
  unfold result in Hr.
  destruct (bruteforceRLP keccak256 (Some b)) as [[e|[rlp'|]] st];
    cbn [fst] in Hr; try discriminate.
  injection Hr as ->.
  destruct C as (p & inc & _ & _ & _ & _ & Hc & _).
  destruct (patternCandidate_toRlp _ _ _ _ _ Hc) as (_ & items & Hi).
  destruct (toRlp_shape _ _ Hi) as (first & body & -> & Hf).
  split; [|split; reflexivity].
  exists first, body. split; [reflexivity|].
  split; [apply hexToBytes_bytesToHex|].
  split; [exact Hf|apply rlpLength_bytesToHex].
Qed.

Lemma returned_encoding_wellformed_witness :
  (exists first body,
     sampleRlp [] = bytesToHex (first :: body)
     /\ hexToBytes (sampleRlp []) = Ok (first :: body)
     /\ 192 <= byteVal first
     /\ rlpLength (sampleRlp []) = zlength (first :: body))
  /\ isFalsy (Some (sampleRlp [])) = false
  /\ isFalsy None = true.
Proof.
  apply (returned_encoding_wellformed standInHash
           (sampleBlock 256 (Some (standInHash (sampleRlp [])))
              (VBigInt 7) VUndefined) (sampleRlp [])).
  vm_compute. reflexivity.
Defined.

(** ** The optional fields included *)

Lemma subsequence_nil_l {A : Type} (l : list A) : subsequence [] l.
Proof. induction l; constructor; assumption. Qed.

Lemma selectFields_filter_subsequence (f : field -> bool) (l : list field) :
  forall p,
  subsequence (List.map fst (selectFields p (List.filter f l))) (List.map fst l).
Proof.
  induction l as [|x l IH]; intros p; cbn [List.filter List.map].
  - destruct p; constructor.
  - destruct (f x).
    + destruct p as [|[] p']; cbn [selectFields List.map].
      * apply subsequence_nil_l.
      * apply subsequence_keep, IH.
      * apply subsequence_skip, IH.
    + apply subsequence_skip, IH.
Qed.

Lemma selectFields_In (x : field) (l : list field) : forall p,
  In x (selectFields p l) -> In x l.
Proof.
  induction l as [|y l IH]; intros p.
  - destruct p as [|flag p]; intros [].
  - destruct p as [|[] p]; cbn [selectFields].
    + intros [].
    + intros [<- | Hin]; [now left|right; now apply (IH p)].
    + intros Hin. right. now apply (IH p).
Qed.

(** X14: the optional fields of the candidate returned, as printed with
    the match, are defined fields of the block, each at most once and in
    header order: baseFeePerGas, withdrawalsRoot, blobGasUsed,
    excessBlobGas, parentBeaconBlockRoot, requestsHash. *)
Theorem included_fields_in_header_order (keccak256 : string -> string)
    (b : Block) (rlp : string) :
  result (bruteforceRLP keccak256 (Some b)) = Return (Some rlp) ->
  exists lines priority mask included,
    printed (bruteforceRLP keccak256 (Some b))
    = lines ++ foundLines priority mask rlp included
    /\ subsequence included optionalNames
    /\ (forall name, In name included ->
          exists v, In (name, v) (optionalFields b) /\ isDefined v = true).
Proof.
  intros Hr.
  destruct (bruteforceRLP_returns _ _ _ Hr) as [base Hb].
  pose proof (bruteforceRLP_cases keccak256 b base Hb) as C.
  unfold result in Hr. unfold printed.
  destruct (bruteforceRLP keccak256 (Some b)) as [[e|[rlp'|]] st];
    cbn [fst snd] in *; try discriminate.
  injection Hr as ->.
  destruct C as (p & inc & pre & lines & priority & _ & Hc & _ & _ & Hl).
  destruct (patternCandidate_toRlp _ _ _ _ _ Hc) as (-> & _).
  exists lines, priority, (maskOf p), (List.map fst (selectFields p (availableOptionalFields b))).
  split; [exact Hl|]. split.
  - apply (selectFields_filter_subsequence _ (optionalFields b) p).
  - intros name Hin. apply List.in_map_iff in Hin.
    destruct Hin as ([name' v] & Hn & Hin). cbn [fst] in Hn. subst name'.
    apply selectFields_In in Hin. apply List.filter_In in Hin.
    exists v. exact Hin.
Qed.

Lemma included_fields_in_header_order_witness :
  exists lines priority mask included,
    printed (bruteforceRLP standInHash
               (Some (sampleBlock 256 (Some (standInHash (sampleRlp [[x07]])))
                        (VBigInt 7) (hash32 "6"))))
    = lines ++ foundLines priority mask (sampleRlp [[x07]]) included
    /\ subsequence included optionalNames
    /\ (forall name, In name included ->
          exists v,
            In (name, v)
              (optionalFields
                 (sampleBlock 256 (Some (standInHash (sampleRlp [[x07]])))
                    (VBigInt 7) (hash32 "6")))
            /\ isDefined v = true).
Proof.
  apply (included_fields_in_header_order standInHash
           (sampleBlock 256 (Some (standInHash (sampleRlp [[x07]])))
              (VBigInt 7) (hash32 "6")) (sampleRlp [[x07]])).
  vm_compute. reflexivity.
Defined.

(** ** The all-fields fast path *)

(** The head of the search order: the base-fee mask when baseFeePerGas is
    defined, then the mask of all available fields. *)
Lemma searchOrder_head (b : Block) :
  availableOptionalFields b <> [] ->
  (isDefined (baseFeePerGas b) = false
   /\ searchOrder (availableOptionalFields b)
      = (totalCombinations (availableOptionalFields b) - 1)
        :: List.skipn 1 (searchOrder (availableOptionalFields b)))
  \/ (isDefined (baseFeePerGas b) = true
      /\ searchOrder (availableOptionalFields b)
         = 1 :: (totalCombinations (availableOptionalFields b) - 1)
           :: List.skipn 2 (searchOrder (availableOptionalFields b))).
Proof.
  unfold availableOptionalFields, optionalFields. cbn [List.filter snd].
  destruct (isDefined (baseFeePerGas b)), (isDefined (withdrawalsRoot b)),
    (isDefined (blobGasUsed b)), (isDefined (excessBlobGas b)),
    (isDefined (parentBeaconBlockRoot b)), (isDefined (requestsHash b));
    intros Hne; try (now destruct Hne);
    first [ left; split; [reflexivity|vm_compute; reflexivity]
          | right; split; [reflexivity|vm_compute; reflexivity] ].
Qed.

(** X17: when the encoding with all available optional fields hashes to
    the target, the call returns a matching encoding after at most two
    candidates.  With baseFeePerGas undefined the all-fields candidate is
    the first one hashed and is the one returned.  With baseFeePerGas
    defined the base-fee candidate is hashed first and must be encodable:
    either it matches and is returned, or the all-fields candidate is
    hashed second and returned. *)
Theorem all_fields_fast_path (keccak256 : string -> string) (b : Block)
    (base : list bytes) (rlp : string) (included : list string) :
  headerInputs b = Ok base ->
  availableOptionalFields b <> [] ->
  candidate base (availableOptionalFields b)
    (totalCombinations (availableOptionalFields b) - 1) = Ok (rlp, included) ->
  sameHash (keccak256 rlp) (hash b) ->
  (isDefined (baseFeePerGas b) = true ->
   exists c, candidate base (availableOptionalFields b) 1 = Ok c) ->
  exists rlp',
    result (bruteforceRLP keccak256 (Some b)) = Return (Some rlp')
    /\ sameHash (keccak256 rlp') (hash b)
    /\ (List.length (tried (bruteforceRLP keccak256 (Some b))) <= 2)%nat
    /\ (isDefined (baseFeePerGas b) = false ->
        rlp' = rlp
        /\ tried (bruteforceRLP keccak256 (Some b))
           = [totalCombinations (availableOptionalFields b) - 1])
    /\ (isDefined (baseFeePerGas b) = true ->
        tried (bruteforceRLP keccak256 (Some b)) = [1]
        \/ (rlp' = rlp
            /\ tried (bruteforceRLP keccak256 (Some b))
               = [1; totalCombinations (availableOptionalFields b) - 1])).
Proof.
  intros Hb Hne Hc Hs Hfee.
  rewrite (bruteforceRLP_search _ _ _ Hb). unfold result, tried.
  pose proof Hs as Hm. apply hashMatches_sameHash in Hm.
  destruct (searchOrder_head b Hne) as [[Hd Ho] | [Hd Ho]].
  - destruct (search_first_match keccak256 (hash b) base _ [] _ _ rlp
                included Ho ltac:(constructor) Hc Hm) as [Hr Ht].
    exists rlp. rewrite Ht.
    split; [exact Hr|]. split; [exact Hs|]. split; [cbn; lia|].
    split; [intros _; split; reflexivity|]. congruence.
  - destruct (Hfee Hd) as [[rlp1 inc1] Hc1].
    destruct (hashMatches (hash b) (keccak256 rlp1)) eqn:Eh.
    + destruct (search_first_match keccak256 (hash b) base _ [] _ _ rlp1
                  inc1 Ho ltac:(constructor) Hc1 Eh) as [Hr Ht].
      exists rlp1. rewrite Ht. apply hashMatches_sameHash in Eh.
      split; [exact Hr|]. split; [exact Eh|]. split; [cbn; lia|].
      split; [congruence|]. intros _. now left.
    + assert (Hpre : List.Forall
                       (nonMatching keccak256 (hash b) base
                          (availableOptionalFields b)) [1]).
      { constructor; [|constructor]. now exists rlp1, inc1. }
      destruct (search_first_match keccak256 (hash b) base _ [1] _ _ rlp
                  included Ho Hpre Hc Hm) as [Hr Ht].
      exists rlp. rewrite Ht.
      split; [exact Hr|]. split; [exact Hs|]. split; [cbn; lia|].
      split; [congruence|]. intros _. right. split; reflexivity.
Qed.

Lemma all_fields_fast_path_witness :
  (exists rlp',
     result (bruteforceRLP standInHash
               (Some (targetBlock [List.repeat x00 32] VUndefined
                        (VBytes (List.repeat x00 32)))))
     = Return (Some rlp')
     /\ rlp' = sampleRlp [List.repeat x00 32]
     /\ tried (bruteforceRLP standInHash
                 (Some (targetBlock [List.repeat x00 32] VUndefined
                          (VBytes (List.repeat x00 32)))))
        = [1])
  /\ (exists rlp',
        result (bruteforceRLP standInHash
                  (Some (targetBlock [[x07]; List.repeat x00 32] (VBigInt 7)
                           (VBytes (List.repeat x00 32)))))
        = Return (Some rlp')
        /\ (tried (bruteforceRLP standInHash
                     (Some (targetBlock [[x07]; List.repeat x00 32]
                              (VBigInt 7) (VBytes (List.repeat x00 32)))))
            = [1]
            \/ (rlp' = sampleRlp [[x07]; List.repeat x00 32]
                /\ tried (bruteforceRLP standInHash
                            (Some (targetBlock [[x07]; List.repeat x00 32]
                                     (VBigInt 7)
                                     (VBytes (List.repeat x00 32)))))
                   = [1; 3]))).
Proof.
  split.
  - destruct (all_fields_fast_path standInHash
                (targetBlock [List.repeat x00 32] VUndefined
                   (VBytes (List.repeat x00 32)))
                sampleBase (sampleRlp [List.repeat x00 32])
                ["withdrawalsRoot"])
      as (rlp' & Hr & _ & _ & Hu & _).
    + vm_compute. reflexivity.
    + discriminate.
    + vm_compute. reflexivity.
    + eexists. split; reflexivity.
    + discriminate.
    + exists rlp'. destruct (Hu eq_refl) as [He Ht].
      split; [exact Hr|]. split; [exact He|exact Ht].
  - destruct (all_fields_fast_path standInHash
                (targetBlock [[x07]; List.repeat x00 32] (VBigInt 7)
                   (VBytes (List.repeat x00 32)))
                sampleBase (sampleRlp [[x07]; List.repeat x00 32])
                ["baseFeePerGas"; "withdrawalsRoot"])
      as (rlp' & Hr & _ & _ & _ & Hd).
    + vm_compute. reflexivity.
    + discriminate.
    + vm_compute. reflexivity.
    + eexists. split; reflexivity.
    + intros _. exists (sampleRlp [[x07]], ["baseFeePerGas"]).
      vm_compute. reflexivity.
    + exists rlp'. split; [exact Hr|]. exact (Hd eq_refl).
Defined.

(** ** A block without logsBloom *)

Lemma logsBloom_absent_rejected_witness :
  exists e,
    bruteforceRLP standInHash
      (Some (withLogsBloom (sampleBlock 256 None (VBigInt 7) VUndefined) None))
    = (Throw e, noEffects).
Proof.
  apply (logsBloom_absent_rejected standInHash
           (withLogsBloom (sampleBlock 256 None (VBigInt 7) VUndefined) None)).
  reflexivity.
Defined.

(** ** The search computes the reconstruction function *)

Lemma searchOrder_range (available : list field) (m : Z) :
  (List.length available <= 30)%nat ->
  In m (searchOrder available) -> 0 <= m < totalCombinations available.
Proof.
  intros Hk Hin. unfold searchOrder in Hin. apply List.in_app_or in Hin.
  destruct Hin as [Hin | Hin].
  - now apply priorityMasks_range.
  - apply List.filter_In in Hin. destruct Hin as [Hin _].
    now apply In_countTo.
Qed.

Section Reconstruct.

Variable keccak256 : string -> string.
Variable targetHash : option string.
Variable base : list bytes.
Variable available : list field.
Hypothesis Hk : (List.length available <= 30)%nat.

Let encoding (m : Z) : res (string * list string) :=
  patternCandidate base available (patternOf (List.length available) m).

Lemma firstMatch_skip (pre rest : list Z) :
  (forall m, In m pre -> 0 <= m < totalCombinations available) ->
  List.Forall (nonMatching keccak256 targetHash base available) pre ->
  firstMatch keccak256 targetHash (List.map encoding (pre ++ rest))
  = firstMatch keccak256 targetHash (List.map encoding rest).
Proof.
  induction pre as [|m pre IH]; intros Hr Hf; [reflexivity|].
  inversion Hf as [|m' pre' (rlp & inc & Hc & Hh) Hf']; subst.
  cbn [List.app List.map firstMatch]. unfold encoding at 1.
  rewrite <- (candidate_pattern base available Hk m) by (apply Hr; now left).
  rewrite Hc. cbv zeta. unfold hashMatches in Hh. rewrite Hh.
  apply IH; [|exact Hf']. intros m' Hin. apply Hr. now right.
Qed.

(** The outcome of the search is the reconstruction function at the
    target and the fields. *)
Lemma search_reconstruct :
  fst (search keccak256 targetHash base available)
  = reconstruct keccak256 targetHash base available.
Proof.
  pose proof (search_prefix keccak256 targetHash base available) as S.
  unfold reconstruct. fold encoding.
  destruct (search _ _ _ _) as [[e|[rlp|]] st]; cbn [fst].
  - destruct S as (pre & m & post & Ho & Hf & Hc & _).
    assert (Hr : forall m', In m' (pre ++ m :: post) ->
                   0 <= m' < totalCombinations available).
    { intros m' Hin. apply (searchOrder_range available m' Hk).
      now rewrite Ho. }
    rewrite Ho, firstMatch_skip; [|intros m' Hin; apply Hr, List.in_or_app;
                                   now left|exact Hf].
    cbn [List.map firstMatch]. unfold encoding at 1.
    rewrite <- (candidate_pattern base available Hk m), Hc; [reflexivity|].
    apply Hr, List.in_or_app. right. now left.
  - destruct S as (pre & m & post & inc & Ho & Hf & Hc & Hh & _).
    assert (Hr : forall m', In m' (pre ++ m :: post) ->
                   0 <= m' < totalCombinations available).
    { intros m' Hin. apply (searchOrder_range available m' Hk).
      now rewrite Ho. }
    rewrite Ho, firstMatch_skip; [|intros m' Hin; apply Hr, List.in_or_app;
                                   now left|exact Hf].
    cbn [List.map firstMatch]. unfold encoding at 1.
    rewrite <- (candidate_pattern base available Hk m), Hc.
    + cbv zeta. unfold hashMatches in Hh. now rewrite Hh.
    + apply Hr, List.in_or_app. right. now left.
  - destruct S as [_ Hf].
    rewrite <- (List.app_nil_r (searchOrder available)).
    rewrite firstMatch_skip; [reflexivity| |exact Hf].
    intros m Hin. now apply searchOrder_range.
Qed.

End Reconstruct.

Lemma bruteforceRLP_reconstruct (keccak256 : string -> string) (b : Block) :
  result (bruteforceRLP keccak256 (Some b))
  = match headerInputs b with
    | Ok base =>
        reconstruct keccak256 (hash b) base (availableOptionalFields b)
    | Err e => Throw e
    end.
Proof.
  destruct (headerInputs b) as [base|e] eqn:Hb.
  - rewrite (bruteforceRLP_search _ _ _ Hb). unfold result.
    apply search_reconstruct, available_length_30.
  - unfold headerInputs in Hb. unfold bruteforceRLP.
    destruct (processLogsBloom (logsBloom b)) as [bloom|e']; cbn [bind] in Hb.
    + rewrite Hb. reflexivity.
    + now injection Hb as ->.
Qed.

(** ** Determinism (C7) *)



(** ** Round trip past candidates that encode *)

(** X19: round trip.  Let the target be the keccak256 hash of the
    encoding of one inclusion pattern.  If the candidates the search
    takes before that pattern's can be encoded, and none of them with
    another encoding has the same hash, [bruteforceRLP] returns precisely
    that encoding.  Nothing is asked of the candidates that come after
    it: they may include a field that cannot be encoded. *)
Theorem roundtrip_after_encodable_candidates (keccak256 : string -> string)
    (b : Block) (base : list bytes) (p : pattern) (rlp : string)
    (included : list string) (pre post : list Z) :
  headerInputs b = Ok base ->
  List.length p = List.length (availableOptionalFields b) ->
  patternCandidate base (availableOptionalFields b) p = Ok (rlp, included) ->
  hash b = Some (keccak256 rlp) ->
  searchOrder (availableOptionalFields b) = pre ++ maskOf p :: post ->
  (forall m, In m pre ->
     exists c, candidate base (availableOptionalFields b) m = Ok c) ->
  (forall m rlp' included',
     In m pre ->
     candidate base (availableOptionalFields b) m = Ok (rlp', included') ->
     sameHash (keccak256 rlp') (hash b) -> rlp' = rlp) ->
  result (bruteforceRLP keccak256 (Some b)) = Return (Some rlp).
Proof.
  intros Hb Hp Hc Hh Ho Henc Hcol.
  destruct (candidate_maskOf base _ (available_length_30 b) p Hp) as [Hm _].
  rewrite <- Hm in Hc.
  assert (Hself : hashMatches (hash b) (keccak256 rlp) = true)
    by (rewrite Hh; apply hashMatches_self).
  rewrite (bruteforceRLP_search _ _ _ Hb). unfold result.
  pose proof (search_prefix keccak256 (hash b) base
                (availableOptionalFields b)) as S.
  destruct (search _ _ _ _) as [[e|[rlp'|]] st]; cbn [fst].
  - destruct S as (pre' & m' & post' & Ho' & Hf & Hc' & _).
    rewrite List.Forall_forall in Hf. rewrite Ho in Ho'.
    destruct (app_cons_cases _ _ _ _ _ _ Ho') as [(_ & <- & _) | [Hin | Hin]].
    + congruence.
    + pose proof (nonMatching_unique _ _ _ _ _ _ _ (Hf _ Hin) Hc). congruence.
    + destruct (Henc _ Hin) as [c Hc'']. congruence.
  - destruct S as (pre' & m' & post' & inc' & Ho' & Hf & Hc' & Hh' & _).
    rewrite List.Forall_forall in Hf. rewrite Ho in Ho'.
    destruct (app_cons_cases _ _ _ _ _ _ Ho') as [(_ & <- & _) | [Hin | Hin]].
    + congruence.
    + pose proof (nonMatching_unique _ _ _ _ _ _ _ (Hf _ Hin) Hc). congruence.
    + apply hashMatches_sameHash in Hh'.
      now rewrite (Hcol m' rlp' inc' Hin Hc' Hh').
  - destruct S as [_ Hf]. rewrite List.Forall_forall in Hf.
    assert (Hin : In (maskOf p) (searchOrder (availableOptionalFields b))).
    { rewrite Ho. apply List.in_or_app. right. now left. }
    pose proof (nonMatching_unique _ _ _ _ _ _ _ (Hf _ Hin) Hc). congruence.
Qed.

Lemma roundtrip_after_encodable_candidates_witness :
  result (bruteforceRLP standInHash
            (Some (targetBlock [[x07]] (VBigInt 7) VNull)))
  = Return (Some (sampleRlp [[x07]]))
  /\ result (bruteforceRLP standInHash
               (Some (targetBlock [] (VBigInt 7) (hash32 "6"))))
     = Return (Some (sampleRlp [])).
Proof.
  split.
  - apply (roundtrip_after_encodable_candidates standInHash
             (targetBlock [[x07]] (VBigInt 7) VNull)
             sampleBase [true; false] (sampleRlp [[x07]]) ["baseFeePerGas"]
             [] [3; 0; 2]).
    + vm_compute. reflexivity.
    + reflexivity.
    + vm_compute. reflexivity.
    + reflexivity.
    + vm_compute. reflexivity.
    + intros m [].
    + intros m rlp' inc' [].
  - apply (roundtrip_after_encodable_candidates standInHash
             (targetBlock [] (VBigInt 7) (hash32 "6"))
             sampleBase [false; false] (sampleRlp []) [] [1; 3] [2]).
    + vm_compute. reflexivity.
    + reflexivity.
    + vm_compute. reflexivity.
    + reflexivity.
    + vm_compute. reflexivity.
    + intros m [<- | [<- | []]]; vm_compute; eexists; reflexivity.
    + intros m rlp' inc' [<- | [<- | []]] Hc (t & Ht & Hs);
        injection Ht as <-; vm_compute in Hc; injection Hc as <- <-;
        vm_compute in Hs; discriminate.
Defined.

(** * The password mask of [solveChallenge9] *)

Lemma byteAt_bits (word i n : Z) :
  0 <= i < 32 -> 0 <= n ->
  Z.testbit (byteAt word i) n
  = (n <? 8) && Z.testbit word (n + 8 * (31 - i)).
Proof.
  intros Hi Hn. unfold byteAt.
  replace (256 ^ (31 - i)) with (2 ^ (8 * (31 - i)))
    by (rewrite Z.pow_mul_r by lia; reflexivity).
  change 256 with (2 ^ 8).
  destruct (Z.ltb_spec n 8) as [Hlt | Hge]; cbn [andb].
  - rewrite Z.mod_pow2_bits_low by lia. apply Z.div_pow2_bits; lia.
  - apply Z.mod_pow2_bits_high. lia.
Qed.

Lemma shiftBits_range (count : Z) :
  0 <= count ->
  Challenge9.shiftBits count = 8 * (31 - count mod 32)
  /\ 0 <= count mod 32 < 32.
Proof.
  intros Hc. unfold Challenge9.shiftBits.
  rewrite Z.rem_mod_nonneg by lia.
  pose proof (Z.mod_pos_bound count 32 ltac:(lia)). lia.
Qed.

Lemma maskedPassword_bits (originalPassword count n : Z) :
  0 <= count -> 0 <= n ->
  Z.testbit (Challenge9.maskedPassword originalPassword count) n
  = Z.testbit originalPassword n
    && (negb ((Challenge9.shiftBits count <=? n)
              && (n <? Challenge9.shiftBits count + 8))
        && (n <? 256)).
Proof.
  intros Hc Hn.
  destruct (shiftBits_range count Hc) as [Hs Hr].
  unfold Challenge9.maskedPassword, Challenge9.mask32Bytes, Challenge9.mask,
    Challenge9.ffShifted.
  rewrite !Z.land_spec, Z.lnot_spec by lia. f_equal. f_equal.
  - f_equal. rewrite Z.shiftl_spec by lia.
    change 255 with (Z.ones 8). rewrite Z.testbit_ones by lia.
    destruct (Z.leb_spec (Challenge9.shiftBits count) n),
      (Z.leb_spec 0 (n - Challenge9.shiftBits count)),
      (Z.ltb_spec (n - Challenge9.shiftBits count) 8),
      (Z.ltb_spec n (Challenge9.shiftBits count + 8));
      cbn [andb]; try reflexivity; lia.
  - rewrite Z.shiftl_1_l. change (2 ^ 256 - 1) with (Z.ones 256).
    rewrite Z.testbit_ones by lia.
    destruct (Z.leb_spec 0 n); [reflexivity|lia].
Qed.

Lemma maskedPassword_range (originalPassword count : Z) :
  0 <= Challenge9.maskedPassword originalPassword count < 2 ^ 256.
Proof.
  unfold Challenge9.maskedPassword, Challenge9.mask32Bytes.
  rewrite Z.shiftl_1_l. change (2 ^ 256 - 1) with (Z.ones 256).
  rewrite Z.land_assoc, Z.land_ones by lia.
  apply Z.mod_pos_bound. lia.
Qed.

(** X15: the password sent is the stored password with one byte
    cleared: seen as a [bytes32], byte [count % 32] (counted from the most
    significant byte) is zero and the other 31 bytes are those of the
    stored password; the value fits 32 bytes. *)
Theorem maskedPassword_clears_one_byte (originalPassword count i : Z) :
  0 <= count -> 0 <= i < 32 ->
  byteAt (Challenge9.maskedPassword originalPassword count) i
  = (if i =? count mod 32 then 0 else byteAt originalPassword i)
  /\ 0 <= Challenge9.maskedPassword originalPassword count < 2 ^ 256.
Proof.
  intros Hc Hi. split; [|apply maskedPassword_range].
  destruct (shiftBits_range count Hc) as [Hs Hr].
  apply Z.bits_inj'. intros n Hn.
  rewrite byteAt_bits by assumption.
  rewrite maskedPassword_bits by lia. rewrite Hs.
  destruct (Z.eqb_spec i (count mod 32)) as [-> | Hne].
  - rewrite Z.bits_0.
    destruct (Z.ltb_spec n 8); cbn [andb]; [|reflexivity].
    destruct (Z.leb_spec (8 * (31 - count mod 32))
                (n + 8 * (31 - count mod 32))); [|lia].
    destruct (Z.ltb_spec (n + 8 * (31 - count mod 32))
                (8 * (31 - count mod 32) + 8)); [|lia].
    cbn [andb negb]. apply andb_false_r.
  - rewrite byteAt_bits by assumption.
    destruct (Z.ltb_spec n 8); cbn [andb]; [|reflexivity].
    destruct (Z.ltb_spec (n + 8 * (31 - i)) 256); [|lia].
    destruct (Z.leb_spec (8 * (31 - count mod 32)) (n + 8 * (31 - i))),
      (Z.ltb_spec (n + 8 * (31 - i)) (8 * (31 - count mod 32) + 8));
      cbn [andb negb]; try (rewrite andb_true_r; reflexivity); lia.
Qed.

Lemma maskedPassword_clears_one_byte_witness :
  byteAt (Challenge9.maskedPassword (2 ^ 256 - 1) 33) 1
  = (if 1 =? 33 mod 32 then 0 else byteAt (2 ^ 256 - 1) 1)
  /\ 0 <= Challenge9.maskedPassword (2 ^ 256 - 1) 33 < 2 ^ 256.
Proof. apply (maskedPassword_clears_one_byte (2 ^ 256 - 1) 33 1); lia. Defined.

(** ** The argument of [mintFlag] *)

Lemma toString16_digits_length (fuel : nat) : forall n acc (l : nat),
  0 <= n < 16 ^ Z.of_nat l -> (1 <= l)%nat ->
  (String.length (toString16_digits fuel n acc) <= l + String.length acc)%nat.
Proof.
  induction fuel as [|fuel IH]; intros n acc l Hn Hl; [cbn; lia|].
  cbn [toString16_digits]. cbv zeta.
  destruct (n / 16 =? 0) eqn:E.
  - cbn [String.length]. lia.
  - apply Z.eqb_neq in E.
    assert (Hq : 0 <= n / 16) by (apply Z.div_pos; lia).
    destruct l as [|[|l]]; [lia| |].
    + exfalso. apply E. apply Z.div_small. cbn in Hn. lia.
    + specialize (IH (n / 16) (String (hexDigit (n mod 16)) acc) (S l)).
      cbn [String.length] in IH.
      assert (Hlt : n / 16 < 16 ^ Z.of_nat (S l)).
      { apply Z.div_lt_upper_bound; [lia|].
        replace (Z.of_nat (S (S l))) with (Z.of_nat (S l) + 1) in Hn by lia.
        rewrite Z.pow_add_r in Hn by lia. lia. }
      specialize (IH ltac:(lia) ltac:(lia)). lia.
Qed.

Lemma toString16_nonneg (n : Z) (l : nat) :
  0 <= n < 16 ^ Z.of_nat l -> (1 <= l)%nat ->
  isHexString (toString16 n) = true
  /\ hexValue (toString16 n) = n
  /\ (String.length (toString16 n) <= l)%nat.
Proof.
  intros Hn Hl.
  assert (Hlen : (String.length (toString16 n) <= l)%nat).
  { unfold toString16. destruct (n <? 0) eqn:E; [apply Z.ltb_lt in E; lia|].
    pose proof (toString16_digits_length (S (Z.to_nat (Z.log2 n))) n "" l
                  Hn Hl) as H.
    cbn [String.length] in H. lia. }
  destruct (Z.eq_dec n 0) as [-> | Hnz].
  - repeat split; [exact Hlen].
  - destruct (toString16_positive n ltac:(lia)) as (H1 & H2 & _).
    now repeat split.
Qed.

Lemma zeroDigits_length (n : nat) : String.length (zeroDigits n) = n.
Proof. induction n as [|n IH]; [reflexivity|]. cbn. now rewrite IH. Qed.

Lemma zeroDigits_append (n : nat) (s : string) :
  isHexString (zeroDigits n ++ s) = isHexString s
  /\ hexValue (zeroDigits n ++ s) = hexValue s.
Proof.
  induction n as [|n [IH1 IH2]]; [split; reflexivity|].
  cbn [zeroDigits append]. split.
  - cbn [isHexString]. change (charCodeToBase16 "0") with (Some 0%N). exact IH1.
  - rewrite hexValue_cons. change (digitVal "0") with 0. lia.
Qed.

(** X16: whatever the two storage slots hold, the argument passed to
    [mintFlag] is a well-formed [bytes32] literal: "0x" followed by
    exactly 64 hex digits, which decode to 32 bytes denoting the masked
    password. *)
Theorem maskedPasswordBytes32_wellformed (originalPassword count : Z) :
  String.length (Challenge9.maskedPasswordBytes32 originalPassword count)
  = 66%nat
  /\ exists bs,
       hexToBytes (Challenge9.maskedPasswordBytes32 originalPassword count)
       = Ok bs
       /\ List.length bs = 32%nat
       /\ beValue bs = Challenge9.maskedPassword originalPassword count.
Proof.
  pose proof (maskedPassword_range originalPassword count) as Hr.
  unfold Challenge9.maskedPasswordBytes32, Challenge9.padStart.
  set (v := Challenge9.maskedPassword originalPassword count) in *.
  destruct (toString16_nonneg v 64) as (Hhex & Hval & Hlen);
    [change (16 ^ Z.of_nat 64) with (2 ^ 256); exact Hr|lia|].
  set (t := (zeroDigits (64 - String.length (toString16 v))
             ++ toString16 v)%string).
  assert (Ht : String.length t = (2 * 32)%nat).
  { unfold t. rewrite append_length, zeroDigits_length. lia. }
  destruct (zeroDigits_append (64 - String.length (toString16 v))
              (toString16 v)) as [H1 H2].
  fold t in H1, H2.
  split; [cbn [append String.length]; rewrite Ht; reflexivity|].
  destruct (hexPairs_ok 32 t Ht ltac:(now rewrite H1)) as (bs & Hbs & Hl & Hv).
  exists bs. unfold hexToBytes. cbn [append slice2]. unfold padEven.
  rewrite Ht. cbn [Nat.even Nat.mul Nat.add].
  split; [exact Hbs|]. split; [exact Hl|]. now rewrite Hv, H2.
Qed.
